(** * GPIO web controller: pin registry, PWM lifecycle, monitor loop, event queue

    A shallow embedding of [src/AppData/app.py].  The Flask handlers are
    modelled as computations in a state-and-exception monad over the
    module's global variables ([pin_states], [pwm_devices],
    [input_monitors], [event_queue]) and an instrumented hardware driver
    that records every call made to gpiozero / RPi.GPIO / the built-in
    mock.  Python exceptions are [Raise] outcomes; mutations made before
    an exception are kept, as in Python.

    Conventions.
    - JSON numbers that the code passes through [float(...)] are modelled
      as rationals [Q]; NaN and infinities are outside the model, and no
      statement below is about a request that carries one.
    - [time.sleep] is modelled with the range of CPython's clock: the
      argument is converted to a signed 64-bit count of nanoseconds
      first ([OverflowError] outside it), then tested for its sign
      ([ValueError] when negative).
    - [str.lower()] is modelled on ASCII letters.
    - The wall-clock timestamp of an event record is not modelled.
    - Log messages and error bodies are constructors carrying the values
      interpolated into the corresponding f-string. *)

From Stdlib Require Import ZArith QArith String Ascii List Lia.
From stdpp Require Import base gmap sets list strings.

Local Open Scope string_scope.
Local Open Scope Z_scope.
Local Open Scope list_scope.

(** ** Data model *)

(** [GPIO_BACKEND] is fixed at import time (lines 13-60). *)
Inductive Backend := gpiozero | RPi_GPIO | mock.

Definition handle := nat.

(** Driver objects held in the registries.  gpiozero devices have a
    [close] method; the PWM objects returned by [GPIO.PWM] (RPi.GPIO and
    the mock) do not. *)
Inductive device_obj :=
| GpiozeroDevice (h : handle)
| GpioPwm (h : handle).

Definition has_close (d : device_obj) : bool :=
  match d with GpiozeroDevice _ => true | GpioPwm _ => false end.

Definition dev_handle (d : device_obj) : handle :=
  match d with GpiozeroDevice h => h | GpioPwm h => h end.

Inductive gpio_dir := GPIO_OUT | GPIO_IN.
Inductive gpio_pud := PUD_OFF | PUD_UP | PUD_DOWN.

(** Every call the application makes on the hardware library. *)
Inductive hw_call :=
| New_OutputDevice (pin : Z) (h : handle)
| New_InputDevice (pin : Z) (pull_up : option bool) (h : handle)
| New_PWMOutputDevice (pin : Z) (frequency : Q) (h : handle)
| Dev_on (h : handle)
| Dev_off (h : handle)
| Dev_close (h : handle)
| Dev_value (h : handle)
| Pwm_set_value (h : handle) (v : Q)
| Pwm_set_frequency (h : handle) (f : Q)
| GPIO_setup (pin : Z) (dir : gpio_dir) (pud : option gpio_pud)
| GPIO_output (pin : Z) (v : Z)
| GPIO_input (pin : Z)
| GPIO_PWM (pin : Z) (frequency : Q) (h : handle)
| PWM_start (h : handle) (duty : Q)
| PWM_stop (h : handle)
| PWM_ChangeDutyCycle (h : handle) (duty : Q)
| GPIO_cleanup
| Sleep (seconds : Q).

Inductive exn :=
| KeyError (key : string)
| AttributeError (name : string)
| TypeError
| ValueError
| OverflowError
| HardwareError (c : hw_call).

Inductive pin_mode := input | output.

(** An entry of [pin_states] (line 66). *)
Record pin_state := mk_pin_state {
  mode : pin_mode;
  value : Z;
  pull : string;
  device : option device_obj
}.

(** An entry of [pwm_devices] (line 67). *)
Record pwm_info := mk_pwm_info {
  pwm_dev : device_obj;
  frequency : Q;
  duty_cycle : Q
}.

Inductive edge := rising | falling.

(** The f-strings passed to [log_event], with their interpolated values. *)
Inductive message :=
| Msg_cleanup_error (pin : Z) (e : exn)
| Msg_cleanup_completed
| Msg_edge (pin : Z) (edge_type : edge) (current_value : Z)
| Msg_monitor_pin_error (pin : Z) (e : exn)
| Msg_monitor_thread_error (e : exn)
| Msg_get_pins_error (e : exn)
| Msg_configured (pin : Z) (m : string) (with_pull : option string)
| Msg_configure_error (e : exn)
| Msg_set_to (pin : Z) (action_upper : string)
| Msg_pulsed (pin : Z) (duration_ms : Q)
| Msg_write_error (e : exn)
| Msg_pwm_started (pin : Z) (frequency duty_cycle : Q)
| Msg_pwm_stopped (pin : Z)
| Msg_pwm_updated (pin : Z) (duty_cycle : Q)
| Msg_pwm_error (e : exn)
| Msg_monitor_started (pin : Z)
| Msg_monitor_stopped (pin : Z)
| Msg_monitor_error (e : exn)
| Msg_reset
| Msg_reset_error (e : exn)
| Msg_started (b : Backend).

Inductive level := info | input_level | error_level.

Record event := mk_event { ev_message : message; ev_level : level }.

(** [queue.Queue(maxsize)]: [maxsize <= 0] means unbounded. *)
Record Queue := mk_Queue { maxsize : Z; items : list event }.

Definition new_Queue (maxsize : Z) : Queue := mk_Queue maxsize [].

Definition qsize (q : Queue) : Z := Z.of_nat (length (items q)).

(** [Queue.put_nowait]: [None] stands for the [queue.Full] exception. *)
Definition put_nowait (q : Queue) (e : event) : option Queue :=
  if (0 <? maxsize q) && (maxsize q <=? qsize q)
  then None
  else Some (mk_Queue (maxsize q) (items q ++ [e])).

(** [Queue.get] on a non-empty queue. *)
Definition queue_get (q : Queue) : option (event * Queue) :=
  match items q with
  | [] => None
  | e :: rest => Some (e, mk_Queue (maxsize q) rest)
  end.

(** The module-level globals, the mock's [_pins] table (values only) and
    the instrumented driver. *)
Record world := mk_world {
  pin_states : gmap Z pin_state;
  pwm_devices : gmap Z pwm_info;
  input_monitors : gset Z;
  event_queue : Queue;
  monitor_running : bool;
  mock_pins : gmap Z Z;
  next_handle : handle;
  hw_trace : list hw_call
}.

(** Lines 66-71: the state right after import. *)
Definition initial_world : world :=
  mk_world ∅ ∅ ∅ (new_Queue 0) false ∅ O [].

Definition VALID_PINS : list Z :=
  [2; 3; 4; 5; 6; 7; 8; 9; 10; 11; 12; 13; 14; 15; 16; 17; 18; 19; 20; 21;
   22; 23; 24; 25; 26; 27].

Definition PWM_PINS : list Z := [12; 13; 18; 19].

(** ** The state-and-exception monad *)

Inductive outcome (A : Type) :=
| Ret (a : A)
| Raise (e : exn).
Arguments Ret {A} a.
Arguments Raise {A} e.

Definition M (A : Type) : Type := world → outcome A * world.

#[global] Instance M_ret : MRet M := λ A a w, (Ret a, w).

#[global] Instance M_bind : MBind M := λ A B f m w,
  match m w with
  | (Ret a, w') => f a w'
  | (Raise e, w') => (Raise e, w')
  end.

#[global] Instance M_fmap : FMap M := λ A B f m w,
  match m w with
  | (Ret a, w') => (Ret (f a), w')
  | (Raise e, w') => (Raise e, w')
  end.

Definition raise {A} (e : exn) : M A := λ w, (Raise e, w).

Definition try_except {A} (body : M A) (handler : exn → M A) : M A := λ w,
  match body w with
  | (Ret a, w') => (Ret a, w')
  | (Raise e, w') => handler e w'
  end.

Definition gets {A} (f : world → A) : M A := λ w, (Ret (f w), w).
Definition modify (f : world → world) : M unit := λ w, (Ret tt, f w).

Definition when (b : bool) (m : M unit) : M unit := if b then m else mret tt.

(** [for x in xs: body x] *)
Fixpoint for_each {A} (xs : list A) (body : A → M unit) : M unit :=
  match xs with
  | [] => mret tt
  | x :: rest => body x ;; for_each rest body
  end.

(** [for _ in range(n): body] *)
Fixpoint for_range (n : nat) (body : M unit) : M unit :=
  match n with
  | O => mret tt
  | S k => body ;; for_range k body
  end.

Definition set_pin_states (f : gmap Z pin_state → gmap Z pin_state) (w : world) : world :=
  mk_world (f (pin_states w)) (pwm_devices w) (input_monitors w) (event_queue w)
           (monitor_running w) (mock_pins w) (next_handle w) (hw_trace w).

Definition set_pwm_devices (f : gmap Z pwm_info → gmap Z pwm_info) (w : world) : world :=
  mk_world (pin_states w) (f (pwm_devices w)) (input_monitors w) (event_queue w)
           (monitor_running w) (mock_pins w) (next_handle w) (hw_trace w).

Definition set_input_monitors (f : gset Z → gset Z) (w : world) : world :=
  mk_world (pin_states w) (pwm_devices w) (f (input_monitors w)) (event_queue w)
           (monitor_running w) (mock_pins w) (next_handle w) (hw_trace w).

Definition set_event_queue (q : Queue) (w : world) : world :=
  mk_world (pin_states w) (pwm_devices w) (input_monitors w) q
           (monitor_running w) (mock_pins w) (next_handle w) (hw_trace w).

Definition set_monitor_running (b : bool) (w : world) : world :=
  mk_world (pin_states w) (pwm_devices w) (input_monitors w) (event_queue w)
           b (mock_pins w) (next_handle w) (hw_trace w).

Definition set_mock_pins (f : gmap Z Z → gmap Z Z) (w : world) : world :=
  mk_world (pin_states w) (pwm_devices w) (input_monitors w) (event_queue w)
           (monitor_running w) (f (mock_pins w)) (next_handle w) (hw_trace w).

Definition push_call (c : hw_call) (w : world) : world :=
  mk_world (pin_states w) (pwm_devices w) (input_monitors w) (event_queue w)
           (monitor_running w) (mock_pins w) (next_handle w) (hw_trace w ++ [c]).

Definition bump_handle (w : world) : world :=
  mk_world (pin_states w) (pwm_devices w) (input_monitors w) (event_queue w)
           (monitor_running w) (mock_pins w) (S (next_handle w)) (hw_trace w).

(** Lines 78-89. *)
Definition log_event (msg : message) (lvl : level) : M unit :=
  q ← gets event_queue;
  match put_nowait q (mk_event msg lvl) with
  | Some q' => modify (set_event_queue q')
  | None => mret tt
  end.

(** ** Requests and responses *)

(** The JSON body of a request.  A field is [None] when the key is absent
    (for [req_pin]: absent or not convertible by [int]). *)
Record request := mk_request {
  req_pin : option Z;
  req_mode : option string;
  req_pull : option string;
  req_action : option string;
  req_duration : option Q;
  req_loops : option Z;
  req_frequency : option Q;
  req_duty_cycle : option Q;
  req_enable : option bool
}.

Definition empty_request : request :=
  mk_request None None None None None None None None None.

Inductive error_body :=
| Err_invalid_pin (pin : Z)
| Err_invalid_mode (m : string)
| Err_not_output (pin : Z)
| Err_invalid_action (action : string)
| Err_duty_cycle
| Err_pwm_not_active (pin : Z)
| Err_not_input (pin : Z)
| Err_message (m : message)
| Err_str (e : exn).

(** One entry of [pins_data] in [get_pins]; [pj_mode = None] is
    ['unconfigured']. *)
Record pin_json := mk_pin_json {
  pj_mode : option pin_mode;
  pj_value : Z;
  pj_pull : string;
  pj_configured : bool;
  pj_pwm : option (Q * Q)
}.

Inductive response :=
| Success
| Success_monitoring (monitoring : bool)
| Pins (pins_data : list (Z * pin_json)) (backend : Backend) (is_pi : bool)
       (valid_pins pwm_pins : list Z)
| Error (body : error_body) (status : Z).

(** ** Strings *)

Definition lower_ascii (c : ascii) : ascii :=
  let n := nat_of_ascii c in
  if (65 <=? n)%nat && (n <=? 90)%nat then ascii_of_nat (n + 32) else c.

Definition upper_ascii (c : ascii) : ascii :=
  let n := nat_of_ascii c in
  if (97 <=? n)%nat && (n <=? 122)%nat then ascii_of_nat (n - 32) else c.

Fixpoint map_string (f : ascii → ascii) (s : string) : string :=
  match s with
  | EmptyString => EmptyString
  | String c rest => String (f c) (map_string f rest)
  end.

Definition lower : string → string := map_string lower_ascii.
Definition upper : string → string := map_string upper_ascii.

(** [mode in ['input', 'output']], returning the mode it denotes. *)
Definition parse_mode (s : string) : option pin_mode :=
  if String.eqb s "input" then Some input
  else if String.eqb s "output" then Some output
  else None.

Definition mode_string (m : pin_mode) : string :=
  match m with input => "input" | output => "output" end.

Definition Qlt_bool (x y : Q) : bool := negb (Qle_bool y x).

(** The clock of [time.sleep] counts nanoseconds in a signed 64-bit
    integer. *)
Definition clock_limit_ns : Z := 2 ^ 63.

Definition sleep_overflows (seconds : Q) : bool :=
  let ns := (seconds * inject_Z (10 ^ 9))%Q in
  Qlt_bool ns (inject_Z (- clock_limit_ns)) || Qle_bool (inject_Z clock_limit_ns) ns.

(** Attributes of [MockGPIO] that [getattr] can find (line 45). *)
Definition mock_attrs : list string :=
  ["BCM"; "OUT"; "IN"; "HIGH"; "LOW"; "PUD_UP"; "PUD_DOWN"; "PUD_OFF"].

Definition mock_has_attr (name : string) : bool :=
  existsb (String.eqb name) mock_attrs.

(** ** The application *)

Section App.

(** Fixed at import time. *)
Variable GPIO_BACKEND : Backend.
Variable IS_PI : bool.

(** Which calls into gpiozero / RPi.GPIO raise. *)
Variable raises : hw_call → bool.

(** A call into the hardware library: recorded, then it may raise. *)
Definition hw (c : hw_call) : M unit :=
  modify (push_call c) ;;
  if raises c then raise (HardwareError c) else mret tt.

Definition fresh_handle : M handle :=
  h ← gets next_handle;
  modify bump_handle ;;
  mret h.

(** [time.sleep] first converts its argument to nanoseconds in a signed
    64-bit integer and raises [OverflowError] when it does not fit
    (beyond about 9.2e9 s either way); a negative argument that fits
    raises [ValueError]. *)
Definition sleep (seconds : Q) : M unit :=
  if sleep_overflows seconds then raise OverflowError
  else if Qlt_bool seconds (inject_Z 0) then raise ValueError
  else modify (push_call (Sleep seconds)).

(** [MockGPIO.output] (lines 52-53). *)
Definition mock_output (pin v : Z) : M unit :=
  modify (push_call (GPIO_output pin v)) ;;
  modify (set_mock_pins (λ pins,
    match pins !! pin with Some _ => <[pin := v]> pins | None => pins end)).

(** [MockGPIO.input] (lines 54-55). *)
Definition mock_input (pin : Z) : M Z :=
  pins ← gets mock_pins;
  mret (default 0 (pins !! pin)).

(** [MockGPIO.setup] (lines 50-51). *)
Definition mock_setup (pin : Z) : M unit :=
  modify (set_mock_pins (<[pin := 0]>)).

(** [getattr(GPIO, name)] on the mock, without a default. *)
Definition mock_getattr (name : string) : M unit :=
  if mock_has_attr name then mret tt else raise (AttributeError name).

(** Lines 91-107. *)
Definition cleanup_pin (pin : Z) : M unit :=
  try_except
    (ps ← gets pin_states;
     match ps !! pin with
     | Some st =>
         match device st with
         | Some d => when (has_close d) (hw (Dev_close (dev_handle d)))
         | None => mret tt
         end ;;
         modify (set_pin_states (delete pin))
     | None => mret tt
     end ;;
     pw ← gets pwm_devices;
     match pw !! pin with
     | Some pwm =>
         when (has_close (pwm_dev pwm)) (hw (Dev_close (dev_handle (pwm_dev pwm)))) ;;
         modify (set_pwm_devices (delete pin))
     | None => mret tt
     end)
    (λ e, log_event (Msg_cleanup_error pin e) error_level).

(** Lines 109-126.  The keys are visited in key order here, in insertion
    order in Python; every key is visited once either way. *)
Definition cleanup_all : M unit :=
  modify (set_monitor_running false) ;;
  ps ← gets pin_states;
  for_each (map_to_list ps).*1 cleanup_pin ;;
  pw ← gets pwm_devices;
  for_each (map_to_list pw).*1 cleanup_pin ;;
  match GPIO_BACKEND with
  | RPi_GPIO => try_except (hw GPIO_cleanup) (λ _, mret tt)
  | _ => mret tt
  end ;;
  log_event Msg_cleanup_completed info.

(** Lines 154-164.  [levels] gives the electrical level of each pin at
    the time of the call. *)
Definition read_pin_value (levels : Z → Z) (pin : Z) : M Z :=
  match GPIO_BACKEND with
  | gpiozero =>
      ps ← gets pin_states;
      match ps !! pin ≫= device with
      | Some d =>
          hw (Dev_value (dev_handle d)) ;;
          mret (if levels pin =? 0 then 0 else 1)
      | None => mret 0
      end
  | RPi_GPIO => hw (GPIO_input pin) ;; mret (levels pin)
  | mock => mock_input pin
  end.

(** The body of the [for] loop of the monitor, lines 136-146, for one
    pin; [previous_states] is the worker's local dictionary. *)
Definition monitor_pin (levels : Z → Z) (pin : Z) (previous_states : gmap Z Z)
  : M (gmap Z Z) :=
  ps ← gets pin_states;
  match ps !! pin with
  | Some (mk_pin_state input _ _ _) =>
      try_except
        (current_value ← read_pin_value levels pin;
         let previous_value := default current_value (previous_states !! pin) in
         if negb (current_value =? previous_value) then
           let edge_type :=
             if current_value >? previous_value then rising else falling in
           log_event (Msg_edge pin edge_type current_value) input_level ;;
           mret (<[pin := current_value]> previous_states)
         else mret previous_states)
        (λ e, log_event (Msg_monitor_pin_error pin e) error_level ;;
              mret previous_states)
  | _ => mret previous_states
  end.

Fixpoint monitor_pins (levels : Z → Z) (pins : list Z) (previous_states : gmap Z Z)
  : M (gmap Z Z) :=
  match pins with
  | [] => mret previous_states
  | pin :: rest =>
      previous_states' ← monitor_pin levels pin previous_states;
      monitor_pins levels rest previous_states'
  end.

(** One pass of the [while] loop, lines 134-152.  Nothing in the body can
    raise outside the inner [try] of [monitor_pin], so the outer handler
    is there for the shape of the code only. *)
Definition monitor_iteration (levels : Z → Z) (previous_states : gmap Z Z)
  : M (gmap Z Z) :=
  try_except
    (monitors ← gets input_monitors;
     previous_states' ← monitor_pins levels (elements monitors) previous_states;
     sleep (1 # 10) ;;
     mret previous_states')
    (λ e, log_event (Msg_monitor_thread_error e) error_level ;;
          sleep (inject_Z 1) ;;
          mret previous_states).

(** Lines 128-152: the loop runs one pass per element of [polls], each
    giving the pin levels at that poll, for as long as [monitor_running]
    is set. *)
Fixpoint monitor_loop (polls : list (Z → Z)) (previous_states : gmap Z Z)
  : M (gmap Z Z) :=
  match polls with
  | [] => mret previous_states
  | levels :: rest =>
      running ← gets monitor_running;
      if (running : bool) then
        previous_states' ← monitor_iteration levels previous_states;
        monitor_loop rest previous_states'
      else mret previous_states
  end.

Definition input_monitor_worker (polls : list (Z → Z)) : M (gmap Z Z) :=
  monitor_loop polls ∅.

(** [data[key]]: [KeyError] when the key is absent. *)
Definition required {A} (key : string) (field : option A) : M A :=
  match field with
  | Some a => mret a
  | None => raise (KeyError key)
  end.

Definition unconfigured_json : pin_json := mk_pin_json None 0 "off" false None.

(** Lines 176-191: one entry of [pins_data]. *)
Definition pin_entry (levels : Z → Z) (pin : Z) : M (Z * pin_json) :=
  ps ← gets pin_states;
  match ps !! pin with
  | Some st =>
      v ← match mode st with
          | input => read_pin_value levels pin
          | output => mret (value st)
          end;
      mret (pin, mk_pin_json (Some (mode st)) v (pull st) true None)
  | None => mret (pin, unconfigured_json)
  end.

Fixpoint pin_entries (levels : Z → Z) (pins : list Z) : M (list (Z * pin_json)) :=
  match pins with
  | [] => mret []
  | pin :: rest =>
      entry ← pin_entry levels pin;
      entries ← pin_entries levels rest;
      mret (entry :: entries)
  end.

(** Lines 194-200: [pins_data[pin]['pwm'] = ...] when [pin in pins_data]. *)
Definition add_pwm_status (pins_data : list (Z * pin_json)) (item : Z * pwm_info)
  : list (Z * pin_json) :=
  map (λ entry : Z * pin_json,
         if entry.1 =? item.1
         then (entry.1,
               mk_pin_json (pj_mode entry.2) (pj_value entry.2) (pj_pull entry.2)
                           (pj_configured entry.2)
                           (Some (frequency item.2, duty_cycle item.2)))
         else entry)
      pins_data.

(** Lines 170-212. *)
Definition get_pins (levels : Z → Z) : M response :=
  try_except
    (pins_data ← pin_entries levels VALID_PINS;
     pw ← gets pwm_devices;
     mret (Pins (foldl add_pwm_status pins_data (map_to_list pw))
                GPIO_BACKEND IS_PI VALID_PINS PWM_PINS))
    (λ e, log_event (Msg_get_pins_error e) error_level ;;
          mret (Error (Err_str e) 500)).

Definition set_pin_state (pin : Z) (st : pin_state) : M unit :=
  modify (set_pin_states (<[pin := st]>)).

(** Lines 214-291. *)
Definition set_pin_mode (data : request) : M response :=
  try_except
    (pin ← required "pin" (req_pin data);
     mode_s ← lower <$> required "mode" (req_mode data);
     let pull_s := lower (default "off" (req_pull data)) in
     if negb (bool_decide (pin ∈ VALID_PINS)) then
       mret (Error (Err_invalid_pin pin) 400)
     else
       match parse_mode mode_s with
       | None => mret (Error (Err_invalid_mode mode_s) 400)
       | Some m =>
           cleanup_pin pin ;;
           match GPIO_BACKEND with
           | gpiozero =>
               match m with
               | output =>
                   h ← fresh_handle;
                   hw (New_OutputDevice pin h) ;;
                   set_pin_state pin
                     (mk_pin_state output 0 "off" (Some (GpiozeroDevice h)))
               | input =>
                   let pull_up :=
                     if String.eqb pull_s "off" then None
                     else Some (String.eqb pull_s "up") in
                   h ← fresh_handle;
                   hw (New_InputDevice pin pull_up h) ;;
                   set_pin_state pin
                     (mk_pin_state input 0 pull_s (Some (GpiozeroDevice h)))
               end
           | RPi_GPIO =>
               match m with
               | output =>
                   hw (GPIO_setup pin GPIO_OUT None) ;;
                   set_pin_state pin (mk_pin_state output 0 "off" None)
               | input =>
                   let pull_config :=
                     if String.eqb pull_s "up" then PUD_UP
                     else if String.eqb pull_s "down" then PUD_DOWN
                     else PUD_OFF in
                   hw (GPIO_setup pin GPIO_IN (Some pull_config)) ;;
                   set_pin_state pin (mk_pin_state input 0 pull_s None)
               end
           | mock =>
               mock_getattr (upper mode_s) ;;
               mock_setup pin ;;
               set_pin_state pin (mk_pin_state m 0 pull_s None)
           end ;;
           log_event
             (Msg_configured pin mode_s
                (match m with
                 | input => if String.eqb pull_s "off" then None else Some pull_s
                 | output => None
                 end))
             info ;;
           mret Success
       end)
    (λ e, log_event (Msg_configure_error e) error_level ;;
          mret (Error (Err_message (Msg_configure_error e)) 500)).

(** [device.on()] / [device.off()] on the object stored in a pin state;
    the attribute lookup fails on [None]. *)
Definition device_call (name : string) (c : handle → hw_call) (d : option device_obj)
  : M unit :=
  match d with
  | Some dev => hw (c (dev_handle dev))
  | None => raise (AttributeError name)
  end.

(** [pin_states[pin]['value'] = v] *)
Definition set_value (pin v : Z) : M unit :=
  ps ← gets pin_states;
  match ps !! pin with
  | Some st =>
      set_pin_state pin (mk_pin_state (mode st) v (pull st) (device st))
  | None => raise (KeyError "pin_states")
  end.

(** Lines 293-356. *)
Definition write_pin (data : request) : M response :=
  try_except
    (pin ← required "pin" (req_pin data);
     action ← lower <$> required "action" (req_action data);
     ps ← gets pin_states;
     match ps !! pin with
     | Some (mk_pin_state output _ _ dev) =>
         if String.eqb action "high" || String.eqb action "low" then
           let v := if String.eqb action "high" then 1 else 0 in
           match GPIO_BACKEND with
           | gpiozero =>
               if v =? 0 then device_call "off" Dev_off dev
               else device_call "on" Dev_on dev
           | RPi_GPIO => hw (GPIO_output pin (if v =? 0 then 0 else 1))
           | mock => mock_output pin v
           end ;;
           set_value pin v ;;
           log_event (Msg_set_to pin (upper action)) info ;;
           mret Success
         else if String.eqb action "pulse" then
           let duration :=
             (default (inject_Z 100) (req_duration data) / inject_Z 1000)%Q in
           let loops := default 5 (req_loops data) in
           let off_time := duration in
           match GPIO_BACKEND with
           | gpiozero =>
               for_range (Z.to_nat loops)
                 (device_call "on" Dev_on dev ;;
                  sleep duration ;;
                  device_call "off" Dev_off dev ;;
                  sleep off_time)
           | RPi_GPIO =>
               for_range (Z.to_nat loops)
                 (hw (GPIO_output pin 1) ;;
                  sleep duration ;;
                  hw (GPIO_output pin 0) ;;
                  sleep off_time)
           | mock =>
               for_range (Z.to_nat loops)
                 (mock_output pin 1 ;;
                  sleep duration ;;
                  mock_output pin 0 ;;
                  sleep off_time)
           end ;;
           set_value pin 0 ;;
           log_event (Msg_pulsed pin (duration * inject_Z 1000)%Q) info ;;
           mret Success
         else mret (Error (Err_invalid_action action) 400)
     | _ => mret (Error (Err_not_output pin) 400)
     end)
    (λ e, log_event (Msg_write_error e) error_level ;;
          mret (Error (Err_message (Msg_write_error e)) 500)).

(** The test [duty_cycle < 0 or duty_cycle > 100] of lines 373 and 436,
    on the numbers of the model. *)
Definition duty_out_of_range (duty_cycle : Q) : bool :=
  Qlt_bool duty_cycle (inject_Z 0) || Qlt_bool (inject_Z 100) duty_cycle.

(** Lines 369-404: [action == 'start']. *)
Definition pwm_start (pin : Z) (data : request) : M response :=
  let frequency := default (inject_Z 1000) (req_frequency data) in
  let duty_cycle := default (inject_Z 50) (req_duty_cycle data) in
  if duty_out_of_range duty_cycle then mret (Error Err_duty_cycle 400)
  else
    pw ← gets pwm_devices;
    match pw !! pin with
    | Some old =>
        when (has_close (pwm_dev old)) (hw (Dev_close (dev_handle (pwm_dev old))))
    | None => mret tt
    end ;;
    cleanup_pin pin ;;
    pwm_device ←
      match GPIO_BACKEND with
      | gpiozero =>
          h ← fresh_handle;
          hw (New_PWMOutputDevice pin frequency h) ;;
          hw (Pwm_set_value h (duty_cycle / inject_Z 100)%Q) ;;
          mret (GpiozeroDevice h)
      | RPi_GPIO =>
          hw (GPIO_setup pin GPIO_OUT None) ;;
          h ← fresh_handle;
          hw (GPIO_PWM pin frequency h) ;;
          hw (PWM_start h duty_cycle) ;;
          mret (GpioPwm h)
      | mock =>
          h ← fresh_handle;
          modify (push_call (GPIO_PWM pin frequency h)) ;;
          raise TypeError
      end;
    modify (set_pwm_devices (<[pin := mk_pwm_info pwm_device frequency duty_cycle]>)) ;;
    log_event (Msg_pwm_started pin frequency duty_cycle) info ;;
    mret Success.

(** Lines 406-418: [action == 'stop']. *)
Definition pwm_stop (pin : Z) : M response :=
  pw ← gets pwm_devices;
  match pw !! pin with
  | Some pwm =>
      match GPIO_BACKEND with
      | gpiozero => hw (Dev_close (dev_handle (pwm_dev pwm)))
      | RPi_GPIO => hw (PWM_stop (dev_handle (pwm_dev pwm)))
      | mock => raise TypeError
      end ;;
      modify (set_pwm_devices (delete pin)) ;;
      log_event (Msg_pwm_stopped pin) info
  | None => mret tt
  end ;;
  mret Success.

(** Lines 420-446: [action == 'update'].  [pwm_info] aliases the stored
    dictionary, so the assignments update [pwm_devices[pin]]. *)
Definition pwm_update (pin : Z) (data : request) : M response :=
  pw ← gets pwm_devices;
  match pw !! pin with
  | None => mret (Error (Err_pwm_not_active pin) 400)
  | Some pwm =>
      let pwm_device := pwm_dev pwm in
      match req_frequency data with
      | Some f =>
          modify (set_pwm_devices
            (alter (λ i, mk_pwm_info (pwm_dev i) f (duty_cycle i)) pin)) ;;
          match GPIO_BACKEND with
          | gpiozero => hw (Pwm_set_frequency (dev_handle pwm_device) f)
          | _ => mret tt
          end
      | None => mret tt
      end ;;
      match req_duty_cycle data with
      | Some d =>
          if duty_out_of_range d then mret (Error Err_duty_cycle 400)
          else
            modify (set_pwm_devices
              (alter (λ i, mk_pwm_info (pwm_dev i) (frequency i) d) pin)) ;;
            match GPIO_BACKEND with
            | gpiozero =>
                hw (Pwm_set_value (dev_handle pwm_device) (d / inject_Z 100)%Q)
            | RPi_GPIO => hw (PWM_ChangeDutyCycle (dev_handle pwm_device) d)
            | mock => mret tt
            end ;;
            log_event (Msg_pwm_updated pin d) info ;;
            mret Success
      | None => mret Success
      end
  end.

(** Lines 358-453.  An action other than start / stop / update falls
    through every branch to the final [return jsonify({'success': True})]. *)
Definition control_pwm (data : request) : M response :=
  try_except
    (pin ← required "pin" (req_pin data);
     action ← lower <$> required "action" (req_action data);
     if negb (bool_decide (pin ∈ VALID_PINS)) then
       mret (Error (Err_invalid_pin pin) 400)
     else if String.eqb action "start" then pwm_start pin data
     else if String.eqb action "stop" then pwm_stop pin
     else if String.eqb action "update" then pwm_update pin data
     else mret Success)
    (λ e, log_event (Msg_pwm_error e) error_level ;;
          mret (Error (Err_message (Msg_pwm_error e)) 500)).

(** Lines 455-478. *)
Definition toggle_monitor (data : request) : M response :=
  try_except
    (pin ← required "pin" (req_pin data);
     let enable := default true (req_enable data) in
     ps ← gets pin_states;
     match ps !! pin with
     | Some (mk_pin_state input _ _ _) =>
         (if enable then
            modify (set_input_monitors (λ s, {[pin]} ∪ s)) ;;
            log_event (Msg_monitor_started pin) info
          else
            modify (set_input_monitors (λ s, s ∖ {[pin]})) ;;
            log_event (Msg_monitor_stopped pin) info) ;;
         monitors ← gets input_monitors;
         mret (Success_monitoring (bool_decide (pin ∈ monitors)))
     | _ => mret (Error (Err_not_input pin) 400)
     end)
    (λ e, log_event (Msg_monitor_error e) error_level ;;
          mret (Error (Err_message (Msg_monitor_error e)) 500)).

(** Lines 480-496. *)
Definition reset_all_pins : M response :=
  try_except
    (modify (set_input_monitors (λ _, ∅)) ;;
     cleanup_all ;;
     log_event Msg_reset info ;;
     mret Success)
    (λ e, log_event (Msg_reset_error e) error_level ;;
          mret (Error (Err_message (Msg_reset_error e)) 500)).

(** Lines 524-533, without the thread start: the worker is run
    explicitly by [input_monitor_worker]. *)
Definition init_app : M unit :=
  modify (set_monitor_running true) ;;
  log_event (Msg_started GPIO_BACKEND) info.

End App.

(** ** The command surface as a datatype *)

(** One request to the command surface; [run_op] dispatches it to its
    handler. *)
Inductive op :=
| Configure (data : request)
| Write (data : request)
| Pwm (data : request)
| Monitor (data : request)
| Reset.

Definition run_op (b : Backend) (raises : hw_call → bool) (o : op) : M response :=
  match o with
  | Configure data => set_pin_mode b raises data
  | Write data => write_pin b raises data
  | Pwm data => control_pwm b raises data
  | Monitor data => toggle_monitor data
  | Reset => reset_all_pins b raises
  end.

(** The world after running a sequence of requests, one after the other. *)
Fixpoint run_ops (b : Backend) (raises : hw_call → bool) (ops : list op) (w : world)
  : world :=
  match ops with
  | [] => w
  | o :: rest => run_ops b raises rest (run_op b raises o w).2
  end.

(** A driver on which no call raises. *)
Definition healthy : hw_call → bool := λ _, false.

(** ** Observations on worlds and traces *)

(** The pin's [PinState] mode, if it has one. *)
Definition mode_of (w : world) (pin : Z) : option pin_mode :=
  mode <$> pin_states w !! pin.

(** MonitorSet ⊆ {pins with PinState.mode = Input}. *)
Definition monitors_are_inputs (w : world) : Prop :=
  ∀ pin, pin ∈ input_monitors w → mode_of w pin = Some input.

(** At most one of PinState and PwmState per pin. *)
Definition exclusive (w : world) : Prop :=
  ∀ pin, pin_states w !! pin = None ∨ pwm_devices w !! pin = None.

Definition is_edge_event (e : event) : bool :=
  match ev_level e with input_level => true | _ => false end.

(** The records of level [input] on the event queue. *)
Definition edge_events (w : world) : list event :=
  filter (λ e, is_edge_event e = true) (items (event_queue w)).

Definition is_close (h : handle) (c : hw_call) : bool :=
  match c with Dev_close h' => Nat.eqb h h' | _ => false end.

(** How many times [close()] was called on handle [h]. *)
Definition close_count (h : handle) (trace : list hw_call) : nat :=
  length (filter (λ c, is_close h c = true) trace).




(** The call that drives [pin] to [v] on each backend (lines 325-343). *)
Definition level_call (b : Backend) (pin : Z) (dev : option device_obj) (v : bool)
  : hw_call :=
  match b, dev with
  | gpiozero, Some d => if v then Dev_on (dev_handle d) else Dev_off (dev_handle d)
  | _, _ => GPIO_output pin (if v then 1 else 0)
  end.



(** ** A weakest-precondition calculus for [M] *)

(** [wp m Q E w]: running [m] in [w] either returns [a] in a world
    satisfying [Q a], or raises [e] in a world satisfying [E e]. *)
Definition wp {A} (m : M A) (Q : A → world → Prop) (E : exn → world → Prop)
    (w : world) : Prop :=
  match m w with
  | (Ret a, w') => Q a w'
  | (Raise e, w') => E e w'
  end.

(** What [log_event] leaves on the queue. *)
Definition publish (q : Queue) (e : event) : Queue :=
  default q (put_nowait q e).

(** [log_event] for each record of a list, in order. *)
Fixpoint log_events (records : list (message * level)) : M unit :=
  match records with
  | [] => mret tt
  | (msg, lvl) :: rest => log_event msg lvl ;; log_events rest
  end.

(** ** Requests used in the scenarios *)

Definition configure_request (pin : Z) (m pull : string) : request :=
  mk_request (Some pin) (Some m) (Some pull) None None None None None None.

Definition write_request (pin : Z) (action : string) : request :=
  mk_request (Some pin) None None (Some action) None None None None None.

Definition pulse_request (pin : Z) (duration_ms : Q) (loops : Z) : request :=
  mk_request (Some pin) None None (Some "pulse") (Some duration_ms) (Some loops)
             None None None.

Definition pwm_request (pin : Z) (action : string) (f d : option Q) : request :=
  mk_request (Some pin) None None (Some action) None None f d None.

Definition monitor_request (pin : Z) (enable : bool) : request :=
  mk_request (Some pin) None None None None None None None (Some enable).

Definition constant_level (v : Z) : Z → Z := λ _, v.

(** [configure(17, input, pull=down)] then [monitor(17, enable=true)] on a
    started application. *)
Definition monitored_17 : world :=
  run_ops gpiozero healthy
    [Configure (configure_request 17 "input" "down");
     Monitor (monitor_request 17 true)]
    (init_app gpiozero initial_world).2.

(** A driver on which exactly [close()] of handle [h] raises. *)
Definition close_fails (h : handle) : hw_call → bool :=
  λ c, is_close h c.

Definition is_read (c : hw_call) : bool :=
  match c with Dev_value _ | GPIO_input _ => true | _ => false end.

(** How many reads of a pin level the trace holds. *)
Definition read_count (trace : list hw_call) : nat :=
  length (filter (λ c, is_read c = true) trace).

Definition record_event (r : message * level) : event := mk_event r.1 r.2.

(** PWM running on pin 18 at 1000 Hz, 50 %. *)
Definition pwm_18_running : world :=
  run_ops gpiozero healthy
    [Pwm (pwm_request 18 "start" (Some (inject_Z 1000)) (Some (inject_Z 50)))]
    initial_world.

(** An update whose duty cycle is out of range but which also carries a
    frequency. *)
Definition bad_update : request :=
  pwm_request 18 "update" (Some (inject_Z 500)) (Some (inject_Z 101)).

(** [startPwm] on pin 18 twice in a row. *)
Definition pwm_18_restarted : world :=
  run_ops gpiozero healthy
    [Pwm (pwm_request 18 "start" None None)]
    pwm_18_running.

(** [keeps f m]: running [m] never changes the observation [f] of the
    world, whether it returns or raises. *)
Definition keeps {X A} (f : world → X) (m : M A) : Prop :=
  ∀ w, f (m w).2 = f w.

(** Pin 17 monitored as an input, then reconfigured as an output. *)
Definition reconfigured_17 : world :=
  run_ops gpiozero healthy
    [Configure (configure_request 17 "output" "off")] monitored_17.

(** No [close()] raises. *)
Definition closes_cleanly (raises : hw_call → bool) : Prop :=
  ∀ h, raises (Dev_close h) = false.

(** Pin 18 configured as output on a driver where closing its device
    (handle 0) raises, then PWM started on it. *)
Definition stuck_18 : world :=
  run_ops gpiozero (close_fails 0%nat)
    [Configure (configure_request 18 "output" "off");
     Pwm (pwm_request 18 "start" None None)]
    initial_world.

(** Pin 17 an output whose device (handle 0) cannot be closed, pin 18 a
    monitored input. *)
Definition faulty_17 : world :=
  run_ops gpiozero (close_fails 0%nat)
    [Configure (configure_request 17 "output" "off");
     Configure (configure_request 18 "input" "down");
     Monitor (monitor_request 18 true)]
    initial_world.

(** What a state query answers for one pin. *)
Definition snapshot_entry (r : outcome response) (pin : Z) : option pin_json :=
  match r with
  | Ret (Pins pins_data _ _ _ _) => (list_to_map pins_data : gmap Z pin_json) !! pin
  | _ => None
  end.

(** On gpiozero a pin state holds the device that [write] drives. *)
Definition drivable (b : Backend) (st : pin_state) : Prop :=
  match b with gpiozero => is_Some (device st) | _ => True end.

(** Pin 17 configured as output. *)
Definition output_17 : world :=
  run_ops gpiozero healthy
    [Configure (configure_request 17 "output" "off")] initial_world.


(** The maximum size of the event queue ([<= 0]: none). *)
Definition queue_maxsize (w : world) : Z := maxsize (event_queue w).

(** ** The event stream *)

(** What the generator of [event_stream] yields: a queued record, or the
    heartbeat sent when the wait of line 506 times out on an empty queue.
    The [json.dumps] text around it is not modelled. *)
Inductive sse_frame :=
| Frame_data (e : event)
| Frame_heartbeat.

(** One turn of the generator's loop, lines 504-510.  No producer runs
    during the wait, so an empty queue means [queue.Empty]. *)
Definition generate_next : M sse_frame :=
  q ← gets event_queue;
  match queue_get q with
  | Some (e, q') => modify (set_event_queue q') ;; mret (Frame_data e)
  | None => mret Frame_heartbeat
  end.

(** Several clients of [/api/events] read from the one [event_queue]:
    each element of [schedule] names the client whose generator takes
    the next turn. *)
Fixpoint serve {C} (schedule : list C) : M (list (C * sse_frame)) :=
  match schedule with
  | [] => mret []
  | client :: rest =>
      frame ← generate_next;
      frames ← serve rest;
      mret ((client, frame) :: frames)
  end.

(** ** Invariants of the registries *)

(** The shape of every pin state the handlers store: the value is 0 or
    1, an input's stored value is 0, an output's pull is 'off', and the
    entry holds a gpiozero device exactly on the gpiozero backend. *)
Definition pin_state_ok (b : Backend) (st : pin_state) : Prop :=
  (value st = 0 ∨ value st = 1) ∧
  (mode st = input → value st = 0) ∧
  (mode st = output → pull st = "off") ∧
  match b with
  | gpiozero => ∃ h, device st = Some (GpiozeroDevice h)
  | _ => device st = None
  end.

(** The shape of every PWM state: a duty cycle within 0-100 and the
    backend's kind of PWM object. *)
Definition pwm_info_ok (b : Backend) (pwm : pwm_info) : Prop :=
  duty_out_of_range (duty_cycle pwm) = false ∧
  match b with
  | gpiozero => ∃ h, pwm_dev pwm = GpiozeroDevice h
  | _ => ∃ h, pwm_dev pwm = GpioPwm h
  end.

Definition well_formed (b : Backend) (w : world) : Prop :=
  map_Forall (λ pin st, pin ∈ VALID_PINS ∧ pin_state_ok b st) (pin_states w) ∧
  map_Forall (λ pin pwm, pin ∈ VALID_PINS ∧ pwm_info_ok b pwm) (pwm_devices w) ∧
  (∀ pin, pin ∈ input_monitors w → pin ∈ VALID_PINS).

(** The handles held by the registries. *)
Definition pin_handle (w : world) (pin : Z) : option handle :=
  dev_handle <$> (pin_states w !! pin ≫= device).

Definition pwm_handle (w : world) (pin : Z) : option handle :=
  (dev_handle ∘ pwm_dev) <$> pwm_devices w !! pin.

(** Every handle held is one the application was given, and no two
    entries hold the same one. *)
Definition handles_distinct (w : world) : Prop :=
  (∀ pin h, pin_handle w pin = Some h → (h < next_handle w)%nat) ∧
  (∀ pin h, pwm_handle w pin = Some h → (h < next_handle w)%nat) ∧
  (∀ p1 p2 h, pin_handle w p1 = Some h → pin_handle w p2 = Some h → p1 = p2) ∧
  (∀ p1 p2 h, pwm_handle w p1 = Some h → pwm_handle w p2 = Some h → p1 = p2) ∧
  (∀ p1 p2 h, pin_handle w p1 = Some h → pwm_handle w p2 = Some h → False).

(** A driver on which no call raises, as a property. *)
Definition never_raises (raises : hw_call → bool) : Prop :=
  ∀ c, raises c = false.

(** Nothing is configured and nothing is monitored. *)
Definition nothing_configured (w : world) : Prop :=
  pin_states w = ∅ ∧ pwm_devices w = ∅ ∧ input_monitors w = ∅.

(** ** The state query *)

(** The entry of [pins_data] after the loop of lines 194-200 has gone
    through the whole PWM registry [pw]. *)
Definition with_pwm (pw : gmap Z pwm_info) (entry : Z * pin_json) : Z * pin_json :=
  match pw !! entry.1 with
  | Some i =>
      (entry.1,
       mk_pin_json (pj_mode entry.2) (pj_value entry.2) (pj_pull entry.2)
                   (pj_configured entry.2) (Some (frequency i, duty_cycle i)))
  | None => entry
  end.

(** The registries and the mock levels, which the state query reads. *)
Definition same_registries (w w' : world) : Prop :=
  pin_states w' = pin_states w ∧ pwm_devices w' = pwm_devices w ∧
  input_monitors w' = input_monitors w ∧ event_queue w' = event_queue w ∧
  monitor_running w' = monitor_running w ∧ mock_pins w' = mock_pins w ∧
  next_handle w' = next_handle w.

(** What lines 176-191 put in the entry of [pin] in world [w]. *)
Definition reports_pin (b : Backend) (raises : hw_call → bool) (levels : Z → Z)
    (w : world) (pin : Z) (j : pin_json) : Prop :=
  match pin_states w !! pin with
  | Some st =>
      pj_mode j = Some (mode st) ∧ pj_pull j = pull st ∧ pj_configured j = true ∧
      match mode st with
      | output => pj_value j = value st
      | input => (read_pin_value b raises levels pin w).1 = Ret (pj_value j)
      end
  | None =>
      pj_mode j = None ∧ pj_pull j = "off" ∧ pj_configured j = false ∧
      pj_value j = 0
  end.

(** ** Devices acquired and released *)

(** Handle [h] is held by an entry of one of the registries. *)
Definition held (w : world) (h : handle) : Prop :=
  ∃ pin, pin_handle w pin = Some h ∨ pwm_handle w pin = Some h.

(** Every device acquired so far is still held by a registry entry or
    has had [close()] called on it. *)
Definition no_leak (w : world) : Prop :=
  ∀ h, (h < next_handle w)%nat → held w h ∨ Dev_close h ∈ hw_trace w.

(** Every object in the registries has a [close] method. *)
Definition closable (w : world) : Prop :=
  (∀ pin st d, pin_states w !! pin = Some st → device st = Some d →
               has_close d = true) ∧
  (∀ pin pwm, pwm_devices w !! pin = Some pwm → has_close (pwm_dev pwm) = true).

(** ** Proofs *)

Section WpRules.
Context {A B : Type}.
Implicit Types (Q : A → world → Prop) (E : exn → world → Prop).

Lemma wp_ret (a : A) Q E w : Q a w → wp (mret a) Q E w.
Proof. done. Qed.

Lemma wp_raise e Q E w : E e w → wp (raise e) Q E w.
Proof. done. Qed.

Lemma wp_gets (f : world → A) Q E w : Q (f w) w → wp (gets f) Q E w.
Proof. done. Qed.

Lemma wp_bind (m : M A) (f : A → M B) (R : B → world → Prop) E w :
  wp m (λ a, wp (f a) R E) E w → wp (m ≫= f) R E w.
Proof. unfold wp, mbind, M_bind. by destruct (m w) as [[a|e] w']. Qed.

Lemma wp_fmap (m : M A) (f : A → B) (R : B → world → Prop) E w :
  wp m (λ a, R (f a)) E w → wp (f <$> m) R E w.
Proof. unfold wp, fmap, M_fmap. by destruct (m w) as [[a|e] w']. Qed.

Lemma wp_try (m : M A) (h : exn → M A) Q E w :
  wp m Q (λ e, wp (h e) Q E) w → wp (try_except m h) Q E w.
Proof. unfold wp, try_except. by destruct (m w) as [[a|e] w']. Qed.

Lemma wp_mono (m : M A) Q Q' E E' w :
  wp m Q E w →
  (∀ a w', Q a w' → Q' a w') → (∀ e w', E e w' → E' e w') →
  wp m Q' E' w.
Proof. unfold wp. destruct (m w) as [[a|e] w']; eauto. Qed.

Lemma wp_run (m : M A) Q E w : wp m Q E w →
  match (m w).1 with Ret a => Q a (m w).2 | Raise e => E e (m w).2 end.
Proof. unfold wp. by destruct (m w) as [[a|e] w']. Qed.
End WpRules.

Lemma wp_modify (f : world → world) Q E w : Q tt (f w) → wp (modify f) Q E w.
Proof. done. Qed.

Ltac wp_step :=
  lazymatch goal with
  | |- wp (mret _) _ _ _ => apply wp_ret
  | |- wp (raise _) _ _ _ => apply wp_raise
  | |- wp (gets _) _ _ _ => apply wp_gets
  | |- wp (modify _) _ _ _ => apply wp_modify
  | |- wp (_ ≫= _) _ _ _ => apply wp_bind
  | |- wp (_ <$> _) _ _ _ => apply wp_fmap
  | |- wp (try_except _ _) _ _ _ => apply wp_try
  | |- wp (when _ _) _ _ _ => unfold when
  | |- wp (required _ _) _ _ _ => unfold required
  | |- wp (if ?b then _ else _) _ _ _ => destruct b eqn:?
  | |- wp (match ?x with _ => _ end) _ _ _ => destruct x eqn:?
  end.

Ltac wp_steps := repeat wp_step.

(** *** The event queue *)

Lemma log_event_run msg lvl w :
  log_event msg lvl w
  = (Ret tt, set_event_queue (publish (event_queue w) (mk_event msg lvl)) w).
Proof.
  unfold log_event, publish, mbind, M_bind, gets. simpl.
  destruct (put_nowait _ _); [done|]. by destruct w.
Qed.

Lemma wp_log_event msg lvl Q E w :
  Q tt (set_event_queue (publish (event_queue w) (mk_event msg lvl)) w) →
  wp (log_event msg lvl) Q E w.
Proof. unfold wp. by rewrite log_event_run. Qed.

Lemma publish_maxsize q e : maxsize (publish q e) = maxsize q.
Proof. unfold publish, put_nowait. by destruct (_ && _). Qed.

Lemma publish_unbounded q e :
  maxsize q = 0 → items (publish q e) = (items q ++ [e])%list.
Proof. unfold publish, put_nowait. by intros ->. Qed.

Lemma publish_full q e :
  0 < maxsize q → maxsize q <= qsize q → publish q e = q.
Proof.
  unfold publish, put_nowait. intros H1 H2.
  apply Z.ltb_lt in H1 as ->. by apply Z.leb_le in H2 as ->.
Qed.

Lemma publish_edge_events q msg lvl :
  lvl ≠ input_level →
  filter (λ e, is_edge_event e = true) (items (publish q (mk_event msg lvl)))
  = filter (λ e, is_edge_event e = true) (items q).
Proof.
  intros Hlvl. unfold publish, put_nowait.
  destruct (_ && _); simpl; [done|].
  rewrite filter_app, filter_cons_False, filter_nil, app_nil_r; [done|].
  unfold is_edge_event. simpl. by destruct lvl.
Qed.

(** Publishing keeps what is queued, in order, and the consumer reads the
    oldest record first. *)
Lemma publish_fifo q e :
  ∃ rest, items (publish q e) = (items q ++ rest)%list.
Proof.
  unfold publish, put_nowait. destruct (_ && _); simpl.
  - exists []. by rewrite app_nil_r.
  - by exists [e].
Qed.

Lemma queue_get_oldest q e e' rest :
  items q = e :: rest →
  fst <$> queue_get (publish q e') = Some e.
Proof.
  intros Hq. destruct (publish_fifo q e') as [more Hmore].
  unfold queue_get. rewrite Hmore, Hq. done.
Qed.

(** A queue that does have a maximum size drops the record at capacity:
    the branch of line 88 that [event_queue] never takes. *)
Lemma publish_bounded_drops cap q e :
  0 < cap → maxsize q = cap → qsize q = cap → publish q e = q.
Proof. intros Hcap Hmax Hsize. apply publish_full; lia. Qed.

(** *** The hardware driver *)

Lemma wp_hw raises c Q E w :
  (raises c = false → Q tt (push_call c w)) →
  (raises c = true → E (HardwareError c) (push_call c w)) →
  wp (hw raises c) Q E w.
Proof.
  intros HQ HE. unfold hw. apply wp_bind, wp_modify.
  destruct (raises c); [apply wp_raise | apply wp_ret]; auto.
Qed.

Lemma wp_sleep secs Q E w :
  (sleep_overflows secs = false → Qlt_bool secs (inject_Z 0) = false →
   Q tt (push_call (Sleep secs) w)) →
  (sleep_overflows secs = false → Qlt_bool secs (inject_Z 0) = true →
   E ValueError w) →
  (sleep_overflows secs = true → E OverflowError w) →
  wp (sleep secs) Q E w.
Proof.
  intros HQ HE HO. unfold sleep.
  destruct (sleep_overflows secs); [apply wp_raise; auto|].
  destruct (Qlt_bool _ _); [apply wp_raise | apply wp_modify]; auto.
Qed.

Ltac unfold_helpers :=
  progress unfold mock_output, mock_input, mock_setup, mock_getattr,
    set_pin_state, set_value, device_call, pwm_start, pwm_stop, pwm_update.

Ltac wp_go :=
  repeat first
    [ wp_step
    | apply wp_log_event
    | apply wp_hw; intros ?
    | apply wp_sleep; intros
    | progress unfold fresh_handle
    | unfold_helpers ];
  simpl in *.

(** A computation that leaves both registries alone. *)
Lemma wp_frame {A} (m : M A) Q E w :
  keeps pin_states m → keeps pwm_devices m →
  (∀ a w', pin_states w' = pin_states w → pwm_devices w' = pwm_devices w → Q a w') →
  (∀ e w', pin_states w' = pin_states w → pwm_devices w' = pwm_devices w → E e w') →
  wp m Q E w.
Proof.
  intros Hps Hpw HQ HE. unfold wp. specialize (Hps w). specialize (Hpw w).
  destruct (m w) as [[a|e] w']; auto.
Qed.

(** A loop invariant for [for_each]. *)
Lemma wp_for_each {A} (I : world → Prop) (xs : list A) body Q E w :
  I w →
  (∀ x w0, I w0 → wp (body x) (λ _, I) E w0) →
  (∀ w0, I w0 → Q tt w0) →
  wp (for_each xs body) Q E w.
Proof.
  intros HI Hbody HQ. revert w HI.
  induction xs as [|x rest IH]; intros w HI; simpl.
  - apply wp_ret. auto.
  - apply wp_bind. eapply wp_mono; [by apply Hbody| |done].
    simpl. intros _ w' HI'. by apply IH.
Qed.

(** *** Frame rules: what a computation leaves alone *)

Section Keeps.
Context {X : Type} (f : world → X).

Lemma keeps_ret {A} (a : A) : keeps f (mret a).
Proof. done. Qed.

Lemma keeps_raise {A} e : keeps f (raise e : M A).
Proof. done. Qed.

Lemma keeps_gets {A} (g : world → A) : keeps f (gets g).
Proof. done. Qed.

Lemma keeps_modify g : (∀ w, f (g w) = f w) → keeps f (modify g).
Proof. intros Hg w. apply Hg. Qed.

Lemma keeps_bind {A B} (m : M A) (k : A → M B) :
  keeps f m → (∀ a, keeps f (k a)) → keeps f (m ≫= k).
Proof.
  intros Hm Hk w. specialize (Hm w). unfold mbind, M_bind.
  destruct (m w) as [[a|e] w']; simpl in *; [|done].
  by rewrite Hk.
Qed.

Lemma keeps_fmap {A B} (g : A → B) (m : M A) : keeps f m → keeps f (g <$> m).
Proof.
  intros Hm w. specialize (Hm w). unfold fmap, M_fmap.
  by destruct (m w) as [[a|e] w'].
Qed.

Lemma keeps_try {A} (m : M A) (h : exn → M A) :
  keeps f m → (∀ e, keeps f (h e)) → keeps f (try_except m h).
Proof.
  intros Hm Hh w. specialize (Hm w). unfold try_except.
  destruct (m w) as [[a|e] w']; simpl in *; [done|].
  by rewrite Hh.
Qed.

Lemma keeps_for_each {A} (xs : list A) (body : A → M unit) :
  (∀ x, keeps f (body x)) → keeps f (for_each xs body).
Proof.
  intros Hbody. induction xs as [|x rest IH]; simpl.
  - apply keeps_ret.
  - apply keeps_bind; [apply Hbody | by intros _].
Qed.

Lemma keeps_for_range n (body : M unit) :
  keeps f body → keeps f (for_range n body).
Proof.
  intros Hbody. induction n as [|n IH]; simpl.
  - apply keeps_ret.
  - apply keeps_bind; [apply Hbody | by intros _].
Qed.

(** Observations that ignore the driver's trace and handle counter. *)
Hypothesis f_push : ∀ c w, f (push_call c w) = f w.
Hypothesis f_bump : ∀ w, f (bump_handle w) = f w.

Lemma keeps_hw raises c : keeps f (hw raises c).
Proof.
  unfold hw. apply keeps_bind; [by apply keeps_modify|].
  intros _. destruct (raises c); [apply keeps_raise | apply keeps_ret].
Qed.

Lemma keeps_sleep secs : keeps f (sleep secs).
Proof.
  unfold sleep. destruct (sleep_overflows secs); [apply keeps_raise|].
  destruct (Qlt_bool _ _); [apply keeps_raise | by apply keeps_modify].
Qed.

Lemma keeps_fresh_handle : keeps f fresh_handle.
Proof.
  unfold fresh_handle. apply keeps_bind; [apply keeps_gets|].
  intros h. apply keeps_bind; [by apply keeps_modify|].
  intros _. apply keeps_ret.
Qed.

(** Observations that also ignore the event queue. *)
Hypothesis f_queue : ∀ q w, f (set_event_queue q w) = f w.

Lemma keeps_log_event msg lvl : keeps f (log_event msg lvl).
Proof. intros w. rewrite log_event_run. apply f_queue. Qed.
End Keeps.

(** Applies the frame rules along the syntax of a computation; [tac]
    closes the side conditions and the calls it does not know. *)
Ltac keeps_with tac :=
  repeat first
    [ tac
    | lazymatch goal with
      | |- keeps _ (mret _) => apply keeps_ret
      | |- keeps _ (raise _) => apply keeps_raise
      | |- keeps _ (gets _) => apply keeps_gets
      | |- keeps _ (_ ≫= _) => apply keeps_bind; [|intros ?]
      | |- keeps _ (_ <$> _) => apply keeps_fmap
      | |- keeps _ (try_except _ _) => apply keeps_try; [|intros ?]
      | |- keeps _ (for_each _ _) => apply keeps_for_each; intros ?
      | |- keeps _ (for_range _ _) => apply keeps_for_range
      | |- keeps _ (modify _) => apply keeps_modify; intros ?; reflexivity
      | |- keeps _ (hw _ _) => apply keeps_hw; intros; reflexivity
      | |- keeps _ (sleep _) => apply keeps_sleep; intros; reflexivity
      | |- keeps _ fresh_handle => apply keeps_fresh_handle; intros; reflexivity
      | |- keeps _ (log_event _ _) => apply keeps_log_event; intros; reflexivity
      | |- keeps _ (when _ _) => unfold when
      | |- keeps _ (required _ _) => unfold required
      | |- keeps _ (if ?b then _ else _) => destruct b
      | |- keeps _ (match ?x with _ => _ end) => destruct x
      | |- keeps _ (let _ := _ in _) => cbv zeta
      end ].

(** *** Cleaning up a pin *)

(** [cleanup_pin] never raises: line 106 catches everything. *)
Lemma wp_cleanup_pin_returns raises pin (Q : unit → world → Prop) E w :
  (∀ w', Q tt w') → wp (cleanup_pin raises pin) Q E w.
Proof. intros HQ. unfold cleanup_pin. wp_go; apply HQ. Qed.

(** When no [close()] raises, [cleanup_pin] returns with both entries of
    the pin removed and the rest of the registries as they were. *)
Lemma wp_cleanup_pin_clean raises pin Q E w :
  closes_cleanly raises →
  (∀ w', pin_states w' = delete pin (pin_states w) →
         pwm_devices w' = delete pin (pwm_devices w) →
         input_monitors w' = input_monitors w →
         event_queue w' = event_queue w →
         Q tt w') →
  wp (cleanup_pin raises pin) Q E w.
Proof.
  intros Hclose HQ. unfold cleanup_pin.
  assert (∀ h w0 (Q0 : unit → world → Prop) E0,
            Q0 tt (push_call (Dev_close h) w0) →
            wp (hw raises (Dev_close h)) Q0 E0 w0) as Hhw.
  { intros h w0 Q0 E0 H0. apply wp_hw; [done|]. by rewrite Hclose. }
  destruct (pin_states w !! pin) as [st|] eqn:Hst;
    destruct (pwm_devices w !! pin) as [pwm|] eqn:Hpwm;
    wp_steps; simpl in *; simplify_eq;
    repeat (apply Hhw; wp_steps; simpl in *; simplify_eq);
    try (apply HQ; simpl; rewrite ?delete_id by done; done).
Qed.

(** When no [close()] raises, cleaning a list of pins removes their
    entries from both registries. *)
Lemma wp_cleanup_pins_clean raises pins (Q : unit → world → Prop) E w :
  closes_cleanly raises →
  (∀ w', pin_states w' = foldl (λ acc p, delete p acc) (pin_states w) pins →
         pwm_devices w' = foldl (λ acc p, delete p acc) (pwm_devices w) pins →
         input_monitors w' = input_monitors w →
         Q tt w') →
  wp (for_each pins (cleanup_pin raises)) Q E w.
Proof.
  intros Hclose. revert w. induction pins as [|p rest IH]; intros w HQ; simpl.
  - apply wp_ret. by apply HQ.
  - apply wp_bind, wp_cleanup_pin_clean; [done|].
    intros w1 Hps Hpw Hmon _. apply IH. intros w2 Hps2 Hpw2 Hmon2.
    apply HQ; simpl; [by rewrite Hps2, Hps | by rewrite Hpw2, Hpw | by rewrite Hmon2].
Qed.

Lemma keeps_monitors_cleanup_pin raises pin :
  keeps input_monitors (cleanup_pin raises pin).
Proof. unfold cleanup_pin. keeps_with fail. Qed.

Lemma keeps_monitors_cleanup_all b raises :
  keeps input_monitors (cleanup_all b raises).
Proof.
  unfold cleanup_all.
  keeps_with ltac:(apply keeps_monitors_cleanup_pin).
Qed.

(** *** Sequences of requests *)

Lemma run_ops_app b raises ops1 ops2 w :
  run_ops b raises (ops1 ++ ops2) w = run_ops b raises ops2 (run_ops b raises ops1 w).
Proof. revert w. induction ops1 as [|o rest IH]; intros w; simpl; [done|]. apply IH. Qed.

(** *** C1: the monitor loop *)

(** Any read leaves the event queue alone. *)
Lemma wp_read_pin_value_queue b raises levels pin w :
  wp (read_pin_value b raises levels pin)
     (λ _ w', event_queue w' = event_queue w)
     (λ _ w', event_queue w' = event_queue w) w.
Proof.
  unfold read_pin_value, mock_input. destruct b; wp_steps;
    try (apply wp_hw; intros; wp_steps); done.
Qed.

(** With an empty cache a pin never yields an edge record, and the cache
    stays empty: line 139 reads the current value back as the previous
    one, and line 144, the only write to the cache, is inside the [if]. *)
Lemma wp_monitor_pin_empty b raises levels pin w :
  wp (monitor_pin b raises levels pin ∅)
     (λ prev w', prev = ∅ ∧ edge_events w' = edge_events w)
     (λ _ _, False) w.
Proof.
  unfold monitor_pin. wp_steps; try done.
  eapply wp_mono; [apply wp_read_pin_value_queue| |]; simpl.
  - intros v w' Hq. rewrite lookup_empty. simpl. rewrite Z.eqb_refl. simpl.
    apply wp_ret. unfold edge_events. by rewrite Hq.
  - intros e w' Hq. apply wp_bind, wp_log_event, wp_ret. split; [done|].
    unfold edge_events. simpl. rewrite publish_edge_events; [|done]. by rewrite Hq.
Qed.

Lemma wp_monitor_pins_empty b raises levels pins w :
  wp (monitor_pins b raises levels pins ∅)
     (λ prev w', prev = ∅ ∧ edge_events w' = edge_events w)
     (λ _ _, False) w.
Proof.
  revert w. induction pins as [|pin rest IH]; intros w; simpl.
  - by apply wp_ret.
  - apply wp_bind. eapply wp_mono; [apply wp_monitor_pin_empty| |]; simpl; [|done].
    intros prev w' [-> Hw']. eapply wp_mono; [apply IH| |]; simpl; [|done].
    intros prev w'' [-> Hw'']. split; [done|]. by rewrite Hw''.
Qed.

Lemma wp_monitor_iteration_empty b raises levels w :
  wp (monitor_iteration b raises levels ∅)
     (λ prev w', prev = ∅ ∧ edge_events w' = edge_events w)
     (λ _ _, False) w.
Proof.
  unfold monitor_iteration. wp_steps.
  eapply wp_mono; [apply wp_monitor_pins_empty| |]; simpl; [|done].
  intros prev w' [-> Hw']. apply wp_bind, wp_sleep; [|done|done].
  intros _ _. by apply wp_ret.
Qed.

(** The worker never publishes an edge record, whatever the backend, the
    driver and the levels it reads. *)
Lemma input_monitor_worker_no_edges b raises polls w :
  edge_events (input_monitor_worker b raises polls w).2 = edge_events w.
Proof.
  unfold input_monitor_worker.
  enough (wp (monitor_loop b raises polls ∅)
             (λ prev w', prev = ∅ ∧ edge_events w' = edge_events w)
             (λ _ _, False) w) as H.
  { apply wp_run in H. destruct (monitor_loop _ _ _ _ _).1; [apply H | done]. }
  revert w. induction polls as [|levels rest IH]; intros w; simpl.
  - by apply wp_ret.
  - apply wp_bind, wp_gets. destruct (monitor_running w); [|by apply wp_ret].
    apply wp_bind.
    eapply wp_mono; [apply wp_monitor_iteration_empty| |]; simpl; [|done].
    intros prev w' [-> Hw']. eapply wp_mono; [apply IH| |]; simpl; [|done].
    intros prev w'' [-> Hw'']. split; [done|]. by rewrite Hw''.
Qed.

(** C1 (the code departs from the claim).  On the spec's scenario, pin 17
    configured as input and monitored, the driver reporting 0,0,1,1,0 at
    five successive polls, the worker publishes no record at all: the
    claim expects one rising and one falling record. *)
Theorem monitor_scenario_publishes_nothing :
  let w := monitored_17 in
  let w' := (input_monitor_worker gpiozero healthy
               (map constant_level [0; 0; 1; 1; 0]) w).2 in
  17 ∈ input_monitors w ∧ mode_of w 17 = Some input ∧
  monitor_running w = true ∧
  read_count (hw_trace w) = 0%nat ∧ read_count (hw_trace w') = 5%nat ∧
  edge_events w' = [] ∧
  items (event_queue w') = items (event_queue w).
Proof.
  repeat split; by vm_compute.
Qed.

(** *** C2: validation and mutation *)

Example duty_minus_one_rejected : duty_out_of_range (inject_Z (-1)) = true.
Proof. reflexivity. Qed.

Example duty_101_rejected : duty_out_of_range (inject_Z 101) = true.
Proof. reflexivity. Qed.

Example duty_0_accepted : duty_out_of_range (inject_Z 0) = false.
Proof. reflexivity. Qed.

Example duty_100_accepted : duty_out_of_range (inject_Z 100) = false.
Proof. reflexivity. Qed.


(** [startPwm] validates before it touches anything: an out-of-range duty
    cycle is answered with 400 and the world is left as it was. *)
Lemma pwm_start_rejects_unchanged b raises pin action f d w :
  pin ∈ VALID_PINS → lower action = "start" → duty_out_of_range d = true →
  control_pwm b raises (pwm_request pin action f (Some d)) w
  = (Ret (Error Err_duty_cycle 400), w).
Proof.
  intros Hpin Hact Hd.
  unfold control_pwm, try_except, pwm_request, required, mbind, M_bind, fmap,
    M_fmap, mret, M_ret. simpl.
  rewrite Hact. simpl. rewrite bool_decide_true by done. simpl.
  unfold pwm_start. simpl. by rewrite Hd.
Qed.

(** [configure] validates the pin and the mode before it touches anything. *)
Lemma set_pin_mode_invalid_pin_unchanged b raises pin m pull w :
  pin ∉ VALID_PINS →
  set_pin_mode b raises (configure_request pin m pull) w
  = (Ret (Error (Err_invalid_pin pin) 400), w).
Proof.
  intros Hpin.
  unfold set_pin_mode, try_except, configure_request, required, mbind, M_bind,
    fmap, M_fmap, mret, M_ret. simpl.
  by rewrite bool_decide_false by done.
Qed.

Lemma set_pin_mode_invalid_mode_unchanged b raises pin m pull w :
  pin ∈ VALID_PINS → parse_mode (lower m) = None →
  set_pin_mode b raises (configure_request pin m pull) w
  = (Ret (Error (Err_invalid_mode (lower m)) 400), w).
Proof.
  intros Hpin Hm.
  unfold set_pin_mode, try_except, configure_request, required, mbind, M_bind,
    fmap, M_fmap, mret, M_ret. simpl.
  rewrite bool_decide_true by done. simpl. by rewrite Hm.
Qed.

(** C2 (the code departs from the claim).  With PWM running on pin 18 at
    1000 Hz, an update carrying frequency 500 and duty cycle 101 is
    answered with the 400 duty-cycle error, but the stored frequency has
    already become 500 and the driver has already been told: lines
    427-431 run before the check of lines 436-437. *)
Theorem pwm_update_mutates_before_rejecting :
  let w := pwm_18_running in
  let r := control_pwm gpiozero healthy bad_update w in
  frequency <$> pwm_devices w !! 18 = Some (inject_Z 1000) ∧
  r.1 = Ret (Error Err_duty_cycle 400) ∧
  frequency <$> pwm_devices r.2 !! 18 = Some (inject_Z 500) ∧
  duty_cycle <$> pwm_devices r.2 !! 18 = Some (inject_Z 50) ∧
  hw_trace r.2 = (hw_trace w ++ [Pwm_set_frequency 0%nat (inject_Z 500)])%list.
Proof. repeat split; by vm_compute. Qed.

(** *** C3: the monitor set *)

Lemma keeps_monitors_set_pin_mode b raises data :
  keeps input_monitors (set_pin_mode b raises data).
Proof.
  unfold set_pin_mode.
  keeps_with ltac:(first [apply keeps_monitors_cleanup_pin | unfold_helpers]).
Qed.

Lemma keeps_monitors_write_pin b raises data :
  keeps input_monitors (write_pin b raises data).
Proof.
  unfold write_pin.
  keeps_with ltac:(first [apply keeps_monitors_cleanup_pin | unfold_helpers]).
Qed.

Lemma keeps_monitors_control_pwm b raises data :
  keeps input_monitors (control_pwm b raises data).
Proof.
  unfold control_pwm.
  keeps_with ltac:(first [apply keeps_monitors_cleanup_pin | unfold_helpers]).
Qed.

Lemma keeps_pin_states_toggle_monitor data :
  keeps pin_states (toggle_monitor data).
Proof. unfold toggle_monitor. keeps_with fail. Qed.

Lemma keeps_pwm_devices_toggle_monitor data :
  keeps pwm_devices (toggle_monitor data).
Proof. unfold toggle_monitor. keeps_with fail. Qed.

(** [reset] empties the monitor set first; nothing after that adds to it. *)
Lemma reset_all_pins_monitors b raises w :
  input_monitors (reset_all_pins b raises w).2 = ∅.
Proof.
  assert (keeps input_monitors
            (cleanup_all b raises ;; log_event Msg_reset info ;;
             mret Success)) as Hrest.
  { keeps_with ltac:(apply keeps_monitors_cleanup_all). }
  assert (∀ e, keeps input_monitors
            (log_event (Msg_reset_error e) error_level ;;
             mret (Error (Err_message (Msg_reset_error e)) 500))) as Hh.
  { intros e. keeps_with fail. }
  unfold reset_all_pins, try_except, mbind at 1, M_bind at 1, modify at 1.
  specialize (Hrest (set_input_monitors (λ _, ∅) w)).
  destruct ((cleanup_all b raises ;; _) _) as [[r|e] w']; simpl in *; [done|].
  by rewrite Hh.
Qed.

(** Monitoring a pin that is not configured as input is refused with 400
    and changes nothing. *)
Lemma toggle_monitor_rejects data pin w :
  req_pin data = Some pin → mode_of w pin ≠ Some input →
  toggle_monitor data w = (Ret (Error (Err_not_input pin) 400), w).
Proof.
  intros Hpin Hmode. unfold mode_of in Hmode.
  unfold toggle_monitor, try_except, required, mbind, M_bind, gets, mret, M_ret.
  rewrite Hpin. simpl.
  destruct (pin_states w !! pin) as [[[] v p d]|]; simpl in *; congruence.
Qed.

(** A pin enters the monitor set only through a monitor request that
    enables monitoring, made while the pin is configured as input. *)
Lemma toggle_monitor_members data w pin :
  pin ∈ input_monitors (toggle_monitor data w).2 →
  pin ∈ input_monitors w ∨
  (req_pin data = Some pin ∧ default true (req_enable data) = true ∧
   mode_of w pin = Some input).
Proof.
  unfold toggle_monitor, try_except, required, mbind, M_bind, gets, mret, M_ret,
    mode_of.
  destruct (req_pin data) as [p|]; simpl.
  2: { rewrite log_event_run. simpl. auto. }
  destruct (pin_states w !! p) as [[[] v pl d]|] eqn:Hp; simpl; auto.
  destruct (default true (req_enable data)); simpl;
    unfold modify; simpl; rewrite log_event_run; simpl.
  - intros [->%elem_of_singleton|]%elem_of_union; [|by left].
    right. by rewrite Hp.
  - intros [? _]%elem_of_difference. by left.
Qed.

(** The loop passes over a member of the monitor set that is not
    configured as input: no read, no record, no change (line 136). *)
Lemma monitor_pin_skips b raises levels pin previous_states w :
  mode_of w pin ≠ Some input →
  monitor_pin b raises levels pin previous_states w = (Ret previous_states, w).
Proof.
  intros Hmode. unfold mode_of in Hmode.
  unfold monitor_pin, mbind, M_bind, gets, mret, M_ret.
  destruct (pin_states w !! pin) as [[[] v p d]|]; simpl in *; congruence.
Qed.

(** After any sequence of requests, every member of the monitor set was
    put there by a monitor request that found the pin configured as
    input. *)
Lemma monitor_set_history b raises ops pin :
  pin ∈ input_monitors (run_ops b raises ops initial_world) →
  ∃ before data after,
    ops = (before ++ Monitor data :: after)%list ∧
    req_pin data = Some pin ∧
    default true (req_enable data) = true ∧
    mode_of (run_ops b raises before initial_world) pin = Some input ∧
    ∀ mid rest, after = (mid ++ rest)%list →
      pin ∈ input_monitors
              (run_ops b raises (before ++ Monitor data :: mid) initial_world).
Proof.
  induction ops as [|o ops IH] using rev_ind; intros Hin.
  - by apply not_elem_of_empty in Hin.
  - pose proof Hin as Hend.
    rewrite run_ops_app in Hin. simpl in Hin.
    assert (pin ∈ input_monitors (run_ops b raises ops initial_world) ∨
            ∃ data, o = Monitor data ∧ req_pin data = Some pin ∧
              default true (req_enable data) = true ∧
              mode_of (run_ops b raises ops initial_world) pin = Some input)
      as [Hold|(data & -> & Hpin & Hen & Hmode)].
    { destruct o as [data|data|data|data|]; simpl in Hin.
      - left. by rewrite keeps_monitors_set_pin_mode in Hin.
      - left. by rewrite keeps_monitors_write_pin in Hin.
      - left. by rewrite keeps_monitors_control_pwm in Hin.
      - apply toggle_monitor_members in Hin as [?|(? & ? & ?)]; [by left|].
        right. by exists data.
      - rewrite reset_all_pins_monitors in Hin. by apply not_elem_of_empty in Hin. }
    + destruct (IH Hold) as (before & data & after & -> & Hpin & Hen & Hmode & Hsince).
      exists before, data, (after ++ [o]).
      split; [by rewrite <- app_assoc|]. repeat (split; [done|]).
      intros mid rest Hsplit.
      destruct rest as [|x rest _] using rev_ind.
      * rewrite app_nil_r in Hsplit. subst mid.
        by rewrite <- app_assoc in Hend.
      * rewrite app_assoc in Hsplit. apply app_inj_tail in Hsplit as [Hsplit _].
        by eapply Hsince.
    + exists ops, data, []. repeat (split; [done|]).
      intros mid rest Hsplit. symmetry in Hsplit.
      apply app_eq_nil in Hsplit as [-> _]. done.
Qed.

(** C3, counterexample to the claim as stated.  Pin 17 is configured as
    input and monitored, then reconfigured as output: it is still in the
    monitor set, and its mode is output. *)
Lemma monitored_pin_survives_reconfigure :
  17 ∈ input_monitors reconfigured_17 ∧
  mode_of reconfigured_17 17 = Some output ∧
  ¬ monitors_are_inputs reconfigured_17.
Proof.
  assert (17 ∈ input_monitors reconfigured_17) as Hin by (by vm_compute).
  assert (mode_of reconfigured_17 17 = Some output) as Hmode by (by vm_compute).
  repeat split; [done..|].
  intros H. specialize (H 17 Hin). congruence.
Qed.

(** Starting PWM on a monitored input pin leaves it in the monitor set
    too, with no pin state at all. *)
Example monitored_pin_survives_pwm_start :
  let w := run_ops gpiozero healthy
             [Pwm (pwm_request 17 "start" None None)] monitored_17 in
  17 ∈ input_monitors w ∧ mode_of w 17 = None.
Proof. split; by vm_compute. Qed.

(** C3, as amended.  After every sequence of requests, every pin in the
    monitor set was configured as input when its monitoring was enabled:
    the sequence holds a monitor request for that pin with [enable] true
    (or absent, which means true), made in a state where the pin was
    configured as input, since which the pin has been in the monitor
    set.  A monitor request for a pin that is not
    configured as input is refused and changes nothing; reset empties
    the monitor set; configure and pwm requests leave the monitor set as
    it is; and the monitor loop passes over a member that is not
    currently configured as input. *)
Theorem monitor_set_discipline b raises :
  (∀ ops pin,
     pin ∈ input_monitors (run_ops b raises ops initial_world) →
     ∃ before data after,
       ops = before ++ Monitor data :: after ∧
       req_pin data = Some pin ∧
       default true (req_enable data) = true ∧
       mode_of (run_ops b raises before initial_world) pin = Some input ∧
       ∀ mid rest, after = mid ++ rest →
         pin ∈ input_monitors
                 (run_ops b raises (before ++ Monitor data :: mid) initial_world)) ∧
  (∀ data pin w,
     req_pin data = Some pin → mode_of w pin ≠ Some input →
     toggle_monitor data w = (Ret (Error (Err_not_input pin) 400), w)) ∧
  (∀ w, input_monitors (reset_all_pins b raises w).2 = ∅) ∧
  (∀ data w, input_monitors (set_pin_mode b raises data w).2 = input_monitors w) ∧
  (∀ data w, input_monitors (control_pwm b raises data w).2 = input_monitors w) ∧
  (∀ levels pin previous_states w,
     mode_of w pin ≠ Some input →
     monitor_pin b raises levels pin previous_states w = (Ret previous_states, w)).
Proof.
  split; [apply monitor_set_history|].
  split; [apply toggle_monitor_rejects|].
  split; [apply reset_all_pins_monitors|].
  split; [intros; apply keeps_monitors_set_pin_mode|].
  split; [intros; apply keeps_monitors_control_pwm|].
  apply monitor_pin_skips.
Qed.

Lemma monitor_set_discipline_witness :
  (∃ before data after,
     [Configure (configure_request 17 "input" "down");
      Monitor (monitor_request 17 true);
      Configure (configure_request 17 "output" "off")]
     = before ++ Monitor data :: after ∧
     req_pin data = Some 17 ∧
     default true (req_enable data) = true ∧
     mode_of (run_ops gpiozero healthy before initial_world) 17 = Some input ∧
     ∀ mid rest, after = mid ++ rest →
       17 ∈ input_monitors
              (run_ops gpiozero healthy (before ++ Monitor data :: mid)
                 initial_world)) ∧
  toggle_monitor (monitor_request 17 true) reconfigured_17
  = (Ret (Error (Err_not_input 17) 400), reconfigured_17).
Proof.
  split.
  - apply (proj1 (monitor_set_discipline gpiozero healthy)). by vm_compute.
  - apply (proj1 (proj2 (monitor_set_discipline gpiozero healthy))).
    + reflexivity.
    + vm_compute. discriminate.
Defined.

(** *** C4: releases *)

(** Reconfiguring a pin closes its device once. *)
Example reconfigure_closes_once :
  let w := run_ops gpiozero healthy
             [Configure (configure_request 17 "output" "off");
              Configure (configure_request 17 "input" "up")] initial_world in
  close_count 0%nat (hw_trace w) = 1%nat.
Proof. by vm_compute. Qed.

(** Stopping PWM closes its device once. *)
Example pwm_stop_closes_once :
  let w := run_ops gpiozero healthy
             [Pwm (pwm_request 18 "stop" None None)] pwm_18_running in
  close_count 0%nat (hw_trace w) = 1%nat ∧ pwm_devices w !! 18 = None.
Proof. by vm_compute. Qed.

(** C4 (the code departs from the claim).  Starting PWM on pin 18 while
    PWM is already running there calls [close()] on the running device
    twice: once at line 380, once more in [cleanup_pin] at line 103. *)
Theorem pwm_restart_closes_twice :
  pwm_dev <$> pwm_devices pwm_18_running !! 18 = Some (GpiozeroDevice 0%nat) ∧
  close_count 0%nat (hw_trace pwm_18_running) = 0%nat ∧
  close_count 0%nat (hw_trace pwm_18_restarted) = 2%nat ∧
  pwm_dev <$> pwm_devices pwm_18_restarted !! 18 = Some (GpiozeroDevice 1%nat).
Proof. repeat split; by vm_compute. Qed.

(** *** C5: the event queue has no bound *)

(** On a queue built without a maximum size, every record is appended. *)
Lemma log_events_unbounded records w :
  maxsize (event_queue w) = 0 →
  maxsize (event_queue (log_events records w).2) = 0 ∧
  items (event_queue (log_events records w).2)
  = (items (event_queue w) ++ map record_event records)%list.
Proof.
  revert w. induction records as [|[msg lvl] rest IH]; intros w Hmax; simpl.
  - by rewrite app_nil_r.
  - unfold mbind, M_bind. rewrite log_event_run.
    destruct (IH (set_event_queue (publish (event_queue w) (mk_event msg lvl)) w))
      as [IH1 IH2].
    { simpl. by rewrite publish_maxsize. }
    split; [done|]. rewrite IH2. simpl.
    rewrite publish_unbounded by done. by rewrite <- app_assoc.
Qed.

Lemma keeps_maxsize_log_event msg lvl : keeps queue_maxsize (log_event msg lvl).
Proof. intros w. rewrite log_event_run. apply publish_maxsize. Qed.

Lemma keeps_maxsize_run_op b raises o : keeps queue_maxsize (run_op b raises o).
Proof.
  destruct o as [data|data|data|data|]; simpl;
    unfold set_pin_mode, write_pin, control_pwm, toggle_monitor, reset_all_pins,
      cleanup_all;
    keeps_with ltac:(first [apply keeps_maxsize_log_event
                           | unfold_helpers | progress unfold cleanup_pin]).
Qed.

(** The queue has no maximum size in any state the requests can reach. *)
Lemma run_ops_queue_unbounded b raises ops :
  queue_maxsize (run_ops b raises ops initial_world) = 0.
Proof.
  induction ops as [|o ops IH] using rev_ind; [done|].
  rewrite run_ops_app. simpl. by rewrite keeps_maxsize_run_op.
Qed.

(** A reset on empty registries publishes its two records. *)
Lemma reset_on_empty b raises w :
  pin_states w = ∅ → pwm_devices w = ∅ → queue_maxsize w = 0 →
  let w' := (reset_all_pins b raises w).2 in
  pin_states w' = ∅ ∧ pwm_devices w' = ∅ ∧ queue_maxsize w' = 0 ∧
  items (event_queue w')
  = items (event_queue w)
    ++ [mk_event Msg_cleanup_completed info; mk_event Msg_reset info].
Proof.
  intros Hps Hpw Hmax w'.
  enough (wp (reset_all_pins b raises)
             (λ _ w1, pin_states w1 = ∅ ∧ pwm_devices w1 = ∅ ∧ queue_maxsize w1 = 0 ∧
                items (event_queue w1)
                = items (event_queue w)
                  ++ [mk_event Msg_cleanup_completed info; mk_event Msg_reset info])
             (λ _ _, False) w) as H.
  { apply wp_run in H. by destruct (_.1). }
  unfold reset_all_pins, cleanup_all.
  apply wp_try, wp_bind, wp_modify, wp_bind, wp_bind, wp_modify, wp_bind, wp_gets.
  simpl. rewrite Hps, map_to_list_empty. simpl.
  apply wp_bind, wp_ret, wp_bind, wp_gets. simpl.
  rewrite Hpw, map_to_list_empty. simpl.
  unfold queue_maxsize in *.
  wp_go; rewrite ?publish_maxsize;
    repeat (rewrite publish_unbounded by (by rewrite ?publish_maxsize));
    by rewrite <- ?app_assoc.
Qed.

(** [n] resets in a row leave [2 * n] records on the queue. *)
Lemma resets_fill_queue b raises n :
  let w := run_ops b raises (replicate n Reset) initial_world in
  pin_states w = ∅ ∧ pwm_devices w = ∅ ∧
  length (items (event_queue w)) = (2 * n)%nat.
Proof.
  induction n as [|n IH]; [done|].
  replace (replicate (S n) Reset) with (replicate n Reset ++ [Reset])
    by (by rewrite <- replicate_S_end).
  intros w. unfold w. rewrite run_ops_app. simpl.
  destruct IH as (Hps & Hpw & Hlen).
  destruct (reset_on_empty b raises _ Hps Hpw (run_ops_queue_unbounded _ _ _))
    as (Hps' & Hpw' & _ & Hitems).
  rewrite Hps', Hpw', Hitems, length_app, Hlen. simpl. split; [done|]. split; [done|lia].
Qed.

(** C5 (the code departs from the claim).  [event_queue] is created by
    [queue.Queue()] with no maximum size and stays so in every state the
    requests can reach, so every published record is enqueued, in order,
    and none is dropped: for every capacity, that many resets plus one,
    with no consumer, leave a longer queue. *)
Theorem event_queue_has_no_capacity b raises :
  (∀ ops, queue_maxsize (run_ops b raises ops initial_world) = 0) ∧
  (∀ records,
     items (event_queue (log_events records initial_world).2)
     = map record_event records) ∧
  (∀ cap : nat,
     (cap < length (items (event_queue
                      (run_ops b raises (replicate (S cap) Reset) initial_world))))%nat).
Proof.
  split; [apply run_ops_queue_unbounded|]. split.
  - intros records. by destruct (log_events_unbounded records initial_world) as [_ ->].
  - intros cap. destruct (resets_fill_queue b raises (S cap)) as (_ & _ & ->). lia.
Qed.

(** *** C6: a pin state or a PWM state, never both *)

Lemma exclusive_frame w w' :
  pin_states w' = pin_states w → pwm_devices w' = pwm_devices w →
  exclusive w → exclusive w'.
Proof. unfold exclusive. by intros -> ->. Qed.

Ltac excl_leaf pin :=
  lazymatch goal with
  | Hex : exclusive _ |- exclusive _ =>
      let p := fresh "p" in
      intros p; specialize (Hex p); simpl;
      repeat match goal with H : pin_states _ = _ |- _ => rewrite H in * end;
      repeat match goal with H : pwm_devices _ = _ |- _ => rewrite H in * end;
      destruct (decide (p = pin)) as [->|];
      destruct Hex; simplify_map_eq; auto
  end.

Lemma exclusive_initial_world : exclusive initial_world.
Proof. intros pin. left. apply lookup_empty. Qed.

(** [cleanup_pin] only removes entries, so it keeps the exclusion whatever
    the driver does. *)
Lemma exclusive_cleanup_pin raises pin w :
  exclusive w →
  wp (cleanup_pin raises pin) (λ _, exclusive) (λ _ _, False) w.
Proof.
  intros Hex. unfold cleanup_pin. wp_go; try done; excl_leaf pin.
Qed.

Lemma exclusive_set_pin_mode b raises data w :
  closes_cleanly raises → exclusive w →
  wp (set_pin_mode b raises data) (λ _, exclusive) (λ _, exclusive) w.
Proof.
  intros Hclose Hex. unfold set_pin_mode.
  wp_go; try done.
  all: try (apply wp_cleanup_pin_clean; [done|]; intros w' Hps Hpw _ _; wp_go).
  all: try done.
  all: try match goal with H : req_pin _ = Some ?z |- exclusive _ => excl_leaf z end.
Qed.

Lemma exclusive_write_pin b raises data w :
  exclusive w →
  wp (write_pin b raises data) (λ _, exclusive) (λ _, exclusive) w.
Proof.
  intros Hex. unfold write_pin.
  wp_go; try done.
  all: try match goal with H : req_pin _ = Some ?z |- exclusive _ => excl_leaf z end.
  all: apply wp_frame;
    [keeps_with ltac:(unfold_helpers) | keeps_with ltac:(unfold_helpers) | |];
    intros; wp_go; try done.
  all: try match goal with H : req_pin _ = Some ?z |- exclusive _ => excl_leaf z end.
Qed.

Lemma exclusive_control_pwm b raises data w :
  closes_cleanly raises → exclusive w →
  wp (control_pwm b raises data) (λ _, exclusive) (λ _, exclusive) w.
Proof.
  intros Hclose Hex. unfold control_pwm.
  wp_go; try done.
  all: try (apply wp_cleanup_pin_clean; [done|]; intros w' Hps Hpw _ _; wp_go).
  all: try done.
  all: try match goal with H : req_pin _ = Some ?z |- exclusive _ => excl_leaf z end.
Qed.

Lemma exclusive_toggle_monitor data w :
  exclusive w → exclusive (toggle_monitor data w).2.
Proof.
  apply exclusive_frame.
  - apply keeps_pin_states_toggle_monitor.
  - apply keeps_pwm_devices_toggle_monitor.
Qed.

Lemma exclusive_cleanup_all b raises w :
  exclusive w →
  wp (cleanup_all b raises) (λ _, exclusive) (λ _ _, False) w.
Proof.
  intros Hex. unfold cleanup_all.
  apply wp_bind, wp_modify, wp_bind, wp_gets.
  apply wp_bind, (wp_for_each exclusive); [done| |].
  { intros pin w0 H0. by apply exclusive_cleanup_pin. }
  intros w1 H1. apply wp_bind, wp_gets.
  apply wp_bind, (wp_for_each exclusive); [done| |].
  { intros pin w0 H0. by apply exclusive_cleanup_pin. }
  intros w2 H2. wp_go; done.
Qed.

Lemma exclusive_reset_all_pins b raises w :
  exclusive w →
  wp (reset_all_pins b raises) (λ _, exclusive) (λ _, exclusive) w.
Proof.
  intros Hex. unfold reset_all_pins.
  apply wp_try, wp_bind, wp_modify, wp_bind.
  eapply wp_mono; [by apply exclusive_cleanup_all| |done].
  simpl. intros _ w' Hw'. wp_go. done.
Qed.

Lemma exclusive_run_op b raises o w :
  closes_cleanly raises → exclusive w → exclusive (run_op b raises o w).2.
Proof.
  intros Hclose Hex.
  destruct o as [data|data|data|data|]; simpl;
    [ pose proof (exclusive_set_pin_mode b raises data w Hclose Hex) as H
    | pose proof (exclusive_write_pin b raises data w Hex) as H
    | pose proof (exclusive_control_pwm b raises data w Hclose Hex) as H
    | by apply exclusive_toggle_monitor
    | pose proof (exclusive_reset_all_pins b raises w Hex) as H ];
    apply wp_run in H; by destruct (_.1).
Qed.

Lemma exclusive_run_ops b raises ops w :
  closes_cleanly raises → exclusive w → exclusive (run_ops b raises ops w).
Proof.
  intros Hclose. revert w. induction ops as [|o rest IH]; intros w Hex; simpl; [done|].
  by apply IH, exclusive_run_op.
Qed.

(** A successful [configure] leaves the pin with a pin state and no PWM
    state. *)
Lemma set_pin_mode_success b raises data pin w :
  closes_cleanly raises → req_pin data = Some pin →
  (set_pin_mode b raises data w).1 = Ret Success →
  is_Some (pin_states (set_pin_mode b raises data w).2 !! pin) ∧
  pwm_devices (set_pin_mode b raises data w).2 !! pin = None.
Proof.
  intros Hclose Hpin.
  enough (wp (set_pin_mode b raises data)
             (λ r w', r = Success →
                is_Some (pin_states w' !! pin) ∧ pwm_devices w' !! pin = None)
             (λ _ _, True) w) as H.
  { apply wp_run in H. intros Hr. rewrite Hr in H. auto. }
  unfold set_pin_mode. rewrite Hpin.
  wp_go; try done.
  all: try (apply wp_cleanup_pin_clean; [done|]; intros w' Hps Hpw _ _; wp_go).
  all: try done.
  all: intros _; rewrite ?Hpw; by simplify_map_eq.
Qed.

(** A successful [startPwm] leaves the pin with a PWM state and no pin
    state. *)
Lemma pwm_start_success b raises data pin action w :
  closes_cleanly raises → req_pin data = Some pin →
  req_action data = Some action → lower action = "start" →
  (control_pwm b raises data w).1 = Ret Success →
  pin_states (control_pwm b raises data w).2 !! pin = None ∧
  is_Some (pwm_devices (control_pwm b raises data w).2 !! pin).
Proof.
  intros Hclose Hpin Haction Hstart.
  enough (wp (control_pwm b raises data)
             (λ r w', r = Success →
                pin_states w' !! pin = None ∧ is_Some (pwm_devices w' !! pin))
             (λ _ _, True) w) as H.
  { apply wp_run in H. intros Hr. rewrite Hr in H. auto. }
  unfold control_pwm. rewrite Hpin, Haction.
  apply wp_try. simpl. apply wp_bind, wp_ret, wp_bind, wp_fmap, wp_ret.
  rewrite Hstart. simpl.
  wp_go; try done.
  all: try (apply wp_cleanup_pin_clean; [done|]; intros w' Hps Hpw _ _; wp_go).
  all: try done.
  all: intros _; rewrite ?Hps; by simplify_map_eq.
Qed.

(** C6 (the code departs from the claim).  On a driver where closing the
    output device of pin 18 raises, [configure(18, output)] followed by
    [startPwm(18)] are both answered with success and leave pin 18 with
    a pin state and a PWM state: [cleanup_pin], called at line 383 to
    remove the pin state before the PWM state is recorded, skips the
    [del pin_states[pin]] of line 98 when [close()] raises at line 97. *)
Theorem close_failure_breaks_exclusion :
  (set_pin_mode gpiozero (close_fails 0%nat)
     (configure_request 18 "output" "off") initial_world).1 = Ret Success ∧
  (control_pwm gpiozero (close_fails 0%nat) (pwm_request 18 "start" None None)
     (set_pin_mode gpiozero (close_fails 0%nat)
        (configure_request 18 "output" "off") initial_world).2).1 = Ret Success ∧
  mode <$> pin_states stuck_18 !! 18 = Some output ∧
  pwm_dev <$> pwm_devices stuck_18 !! 18 = Some (GpiozeroDevice 1%nat) ∧
  ¬ exclusive stuck_18.
Proof.
  assert (mode <$> pin_states stuck_18 !! 18 = Some output) as Hps
    by (by vm_compute).
  assert (pwm_dev <$> pwm_devices stuck_18 !! 18 = Some (GpiozeroDevice 1%nat))
    as Hpw by (by vm_compute).
  split; [by vm_compute|]. split; [by vm_compute|].
  split; [done|]. split; [done|].
  intros Hex. destruct (Hex 18) as [H|H]; rewrite H in *; discriminate.
Qed.

(** When no [close()] raises the exclusion does hold: after every
    sequence of requests each pin has at most one of a pin state and a
    PWM state; a successful configure leaves the pin with a pin state
    and no PWM state; a successful startPwm leaves it with a PWM state
    and no pin state. *)
Lemma exclusive_after_any_sequence b raises :
  closes_cleanly raises →
  (∀ ops, exclusive (run_ops b raises ops initial_world)) ∧
  (∀ data pin w,
     req_pin data = Some pin →
     (set_pin_mode b raises data w).1 = Ret Success →
     is_Some (pin_states (set_pin_mode b raises data w).2 !! pin) ∧
     pwm_devices (set_pin_mode b raises data w).2 !! pin = None) ∧
  (∀ data pin action w,
     req_pin data = Some pin →
     req_action data = Some action → lower action = "start" →
     (control_pwm b raises data w).1 = Ret Success →
     pin_states (control_pwm b raises data w).2 !! pin = None ∧
     is_Some (pwm_devices (control_pwm b raises data w).2 !! pin)).
Proof.
  intros Hclose. repeat split.
  - intros ops. apply exclusive_run_ops; [done|apply exclusive_initial_world].
  - by eapply set_pin_mode_success.
  - by eapply set_pin_mode_success.
  - by eapply pwm_start_success.
  - by eapply pwm_start_success.
Qed.

Lemma exclusive_after_any_sequence_witness :
  exclusive
    (run_ops gpiozero healthy
       [Configure (configure_request 18 "output" "off");
        Pwm (pwm_request 18 "start" None None);
        Configure (configure_request 18 "input" "up")]
       initial_world).
Proof.
  apply (proj1 (exclusive_after_any_sequence gpiozero healthy (λ h, eq_refl))).
Defined.

(** *** C7: pulses *)













(** Outside the range of the clock the cycles do not happen: at
    [d = 10^13] ms the first [time.sleep] raises [OverflowError], the
    request is answered with 500 and the pin is left driven high. *)
Example pulse_overlong_duration_fails :
  let r := write_pin gpiozero healthy
             (pulse_request 17 (inject_Z (10 ^ 13)) 1) output_17 in
  r.1 = Ret (Error (Err_message (Msg_write_error OverflowError)) 500) ∧
  hw_trace r.2 = hw_trace output_17 ++ [Dev_on 0%nat] ∧
  pin_states r.2 = pin_states output_17.
Proof. repeat split; by vm_compute. Qed.

(** With zero loops the request makes no hardware call and still stores
    the value 0, whatever the pin was driven to before. *)
Example pulse_zero_loops :
  let w := run_ops gpiozero healthy [Write (write_request 17 "high")] output_17 in
  let r := write_pin gpiozero healthy (pulse_request 17 (inject_Z 100) 0) w in
  value <$> pin_states w !! 17 = Some 1 ∧
  r.1 = Ret Success ∧
  hw_trace r.2 = hw_trace w ∧
  value <$> pin_states r.2 !! 17 = Some 0.
Proof. repeat split; by vm_compute. Qed.

(** *** C8: reset *)

(** Removing a list of keys from a map. *)
Lemma lookup_delete_list {V} (pins : list Z) (m : gmap Z V) k :
  foldl (λ acc p, delete p acc) m pins !! k
  = if decide (k ∈ pins) then None else m !! k.
Proof.
  revert m. induction pins as [|p rest IH]; intros m; cbn [foldl].
  - case_decide as H; [by apply elem_of_nil in H|done].
  - rewrite IH. destruct (decide (k = p)) as [->|Hne].
    + rewrite lookup_delete_eq.
      rewrite (decide_True _ _ (list_elem_of_here p rest)).
      by destruct (decide _).
    + rewrite lookup_delete_ne by done.
      destruct (decide (k ∈ rest)) as [Hin|Hnin].
      * by rewrite decide_True by (by apply list_elem_of_further).
      * rewrite decide_False; [done|].
        intros [?|?]%elem_of_cons; done.
Qed.

Lemma delete_all_keys {V} (m : gmap Z V) :
  foldl (λ acc p, delete p acc) m (map_to_list m).*1 = ∅.
Proof.
  apply map_empty. intros k. rewrite lookup_delete_list.
  destruct (decide _) as [|Hnin]; [done|].
  destruct (m !! k) as [v|] eqn:Hk; [|done].
  exfalso. apply Hnin. apply list_elem_of_fmap. exists (k, v).
  split; [done|]. by apply elem_of_map_to_list.
Qed.

Lemma delete_list_empty {V} (pins : list Z) :
  foldl (λ acc p, delete p acc) (∅ : gmap Z V) pins = ∅.
Proof.
  apply map_empty. intros k. rewrite lookup_delete_list.
  destruct (decide _); [done|apply lookup_empty].
Qed.

(** When no [close()] raises, [reset] answers success and leaves no pin
    state, no PWM state and no monitored pin. *)
Lemma reset_all_pins_clean b raises w :
  closes_cleanly raises →
  (reset_all_pins b raises w).1 = Ret Success ∧
  pin_states (reset_all_pins b raises w).2 = ∅ ∧
  pwm_devices (reset_all_pins b raises w).2 = ∅ ∧
  input_monitors (reset_all_pins b raises w).2 = ∅.
Proof.
  intros Hclose.
  enough (wp (reset_all_pins b raises)
             (λ r w', r = Success ∧ pin_states w' = ∅ ∧ pwm_devices w' = ∅ ∧
                      input_monitors w' = ∅)
             (λ _ _, False) w) as H.
  { apply wp_run in H.
    destruct (reset_all_pins b raises w) as [[r|e] w']; simpl in *; [|done].
    by destruct H as (-> & ? & ? & ?). }
  unfold reset_all_pins, cleanup_all.
  apply wp_try, wp_bind, wp_modify, wp_bind, wp_bind, wp_modify, wp_bind, wp_gets.
  apply wp_bind, wp_cleanup_pins_clean; [done|]. simpl.
  intros w1 Hps1 Hpw1 Hmon1. rewrite delete_all_keys in Hps1.
  apply wp_bind, wp_gets, wp_bind, wp_cleanup_pins_clean; [done|].
  intros w2 Hps2 Hpw2 Hmon2.
  rewrite Hps1, delete_list_empty in Hps2. rewrite delete_all_keys in Hpw2.
  rewrite Hmon1 in Hmon2.
  wp_go; done.
Qed.

(** With no pin state and no PWM state, the state query reports every
    valid pin as unconfigured and makes no hardware call. *)
Lemma pin_entry_unconfigured b raises levels pin w :
  pin_states w = ∅ →
  pin_entry b raises levels pin w = (Ret (pin, unconfigured_json), w).
Proof.
  intros Hps. unfold pin_entry, mbind, M_bind, gets.
  by rewrite Hps, lookup_empty.
Qed.

Lemma pin_entries_unconfigured b raises levels pins w :
  pin_states w = ∅ →
  pin_entries b raises levels pins w
  = (Ret (map (λ pin, (pin, unconfigured_json)) pins), w).
Proof.
  intros Hps. induction pins as [|pin rest IH]; simpl; [done|].
  unfold mbind, M_bind. by rewrite pin_entry_unconfigured, IH.
Qed.

Lemma get_pins_unconfigured b is_pi raises levels w :
  pin_states w = ∅ → pwm_devices w = ∅ →
  get_pins b is_pi raises levels w
  = (Ret (Pins (map (λ pin, (pin, unconfigured_json)) VALID_PINS)
               b is_pi VALID_PINS PWM_PINS), w).
Proof.
  intros Hps Hpw. unfold get_pins, try_except, mbind, M_bind, gets.
  rewrite pin_entries_unconfigured by done. simpl.
  by rewrite Hpw, map_to_list_empty.
Qed.

(** [reset] is answered with success whatever the driver does: release
    errors are logged, never propagated. *)
Lemma reset_all_pins_always_succeeds b raises w :
  (reset_all_pins b raises w).1 = Ret Success.
Proof.
  enough (wp (reset_all_pins b raises) (λ r _, r = Success) (λ _ _, False) w) as H.
  { apply wp_run in H. by destruct (_.1) as [r|e]; [rewrite H|]. }
  unfold reset_all_pins, cleanup_all.
  apply wp_try, wp_bind, wp_modify, wp_bind, wp_bind, wp_modify, wp_bind, wp_gets.
  apply wp_bind, (wp_for_each (λ _, True)); [done| |].
  { intros pin w0 _. by apply wp_cleanup_pin_returns. }
  intros w1 _. apply wp_bind, wp_gets.
  apply wp_bind, (wp_for_each (λ _, True)); [done| |].
  { intros pin w0 _. by apply wp_cleanup_pin_returns. }
  intros w2 _. wp_go; done.
Qed.

(** C8 (the code departs from the claim).  Pin 17 is an output whose
    device raises on [close()], pin 18 a monitored input.  [reset] is
    answered with success, logs the error, empties the monitor set and
    cleans pin 18, but pin 17 keeps its pin state: in [cleanup_pin] the
    [del pin_states[pin]] of line 98 is skipped when line 97 raises.  The
    state query that follows reports pin 17 as a configured output. *)
Theorem reset_keeps_pin_whose_close_fails :
  let r := reset_all_pins gpiozero (close_fails 0%nat) faulty_17 in
  let snapshot := (get_pins gpiozero true (close_fails 0%nat) (constant_level 0) r.2).1 in
  r.1 = Ret Success ∧
  input_monitors r.2 = ∅ ∧
  mode_of r.2 18 = None ∧
  mode_of r.2 17 = Some output ∧
  items (event_queue r.2)
  = items (event_queue faulty_17)
    ++ [mk_event (Msg_cleanup_error 17 (HardwareError (Dev_close 0%nat))) error_level;
        mk_event Msg_cleanup_completed info;
        mk_event Msg_reset info] ∧
  pj_configured <$> snapshot_entry snapshot 17 = Some true ∧
  pj_mode <$> snapshot_entry snapshot 17 = Some (Some output) ∧
  pj_configured <$> snapshot_entry snapshot 18 = Some false.
Proof. repeat split; by vm_compute. Qed.

(** *** C9: unknown actions *)

(** [write] answers an unknown action on an output pin with 400 and
    changes nothing. *)
Lemma write_pin_unknown_action b raises pin action st w :
  pin_states w !! pin = Some st → mode st = output →
  lower action ≠ "high" → lower action ≠ "low" → lower action ≠ "pulse" →
  write_pin b raises (write_request pin action) w
  = (Ret (Error (Err_invalid_action (lower action)) 400), w).
Proof.
  intros Hst Hmode H1 H2 H3.
  unfold write_pin, try_except, write_request, required, mbind, M_bind, fmap,
    M_fmap, mret, M_ret, gets. simpl.
  rewrite Hst. destruct st as [m v p d]. simpl in Hmode. subst m.
  apply String.eqb_neq in H1, H2, H3. by rewrite H1, H2, H3.
Qed.

(** [pwm] answers an unknown action on a valid pin with success, and
    changes nothing. *)
Lemma control_pwm_unknown_action b raises pin action f d w :
  pin ∈ VALID_PINS →
  lower action ≠ "start" → lower action ≠ "stop" → lower action ≠ "update" →
  control_pwm b raises (pwm_request pin action f d) w = (Ret Success, w).
Proof.
  intros Hpin H1 H2 H3.
  unfold control_pwm, try_except, pwm_request, required, mbind, M_bind, fmap,
    M_fmap, mret, M_ret. simpl.
  rewrite bool_decide_true by done. simpl.
  apply String.eqb_neq in H1, H2, H3. by rewrite H1, H2, H3.
Qed.

(** C9 (the code departs from the claim).  A pwm request on pin 18 whose
    action is "blink" is answered with success, where a write request
    with the same action on an output pin is answered with the 400
    invalid-action error; neither changes the world. *)
Theorem pwm_unknown_action_reports_success :
  let w := run_ops gpiozero healthy
             [Configure (configure_request 18 "output" "off")] initial_world in
  control_pwm gpiozero healthy (pwm_request 18 "blink" None None) w
  = (Ret Success, w) ∧
  write_pin gpiozero healthy (write_request 18 "blink") w
  = (Ret (Error (Err_invalid_action "blink") 400), w).
Proof. split; by vm_compute. Qed.

(** *** C10: PWM on any valid pin *)






(** * Further properties of the application *)

(** *** The event stream *)

Lemma generate_next_run w :
  generate_next w
  = match items (event_queue w) with
    | [] => (Ret Frame_heartbeat, w)
    | e :: rest =>
        (Ret (Frame_data e),
         set_event_queue (mk_Queue (maxsize (event_queue w)) rest) w)
    end.
Proof.
  unfold generate_next, queue_get, mbind, M_bind, gets, modify.
  by destruct (items (event_queue w)).
Qed.

(** X1.  Clients of the event stream share the one queue: in whatever
    order their generators take turns, the frames handed out are the
    queued records, oldest first and each to one client only, then
    heartbeats once the queue is empty; the records handed out leave the
    queue. *)
Theorem event_stream_hands_out_each_record_once {C} (schedule : list C) w :
  ∃ frames,
    (serve schedule w).1 = Ret frames ∧
    frames.*1 = schedule ∧
    frames.*2
    = map Frame_data (take (length schedule) (items (event_queue w)))
      ++ replicate (length schedule - length (items (event_queue w))) Frame_heartbeat ∧
    items (event_queue (serve schedule w).2)
    = drop (length schedule) (items (event_queue w)).
Proof.
  revert w. induction schedule as [|client rest IH]; intros w.
  - exists []. by rewrite drop_0.
  - cbn [serve]. unfold mbind, M_bind. rewrite generate_next_run.
    destruct (items (event_queue w)) as [|e es] eqn:Hitems.
    + destruct (IH w) as (frames & Hr & H1 & H2 & H3).
      destruct (serve rest w) as [[fs|x] w'] eqn:Hs; csimpl in *; [|done].
      injection Hr as ->. exists ((client, Frame_heartbeat) :: frames).
      rewrite Hitems, take_nil, drop_nil in *. csimpl in *.
      rewrite Nat.sub_0_r in H2.
      repeat split; [by rewrite H1|by rewrite H2|done].
    + set (w1 := set_event_queue _ w).
      destruct (IH w1) as (frames & Hr & H1 & H2 & H3).
      destruct (serve rest w1) as [[fs|x] w'] eqn:Hs; csimpl in *; [|done].
      injection Hr as ->. exists ((client, Frame_data e) :: frames).
      csimpl. repeat split; [by rewrite H1|by rewrite H2|done].
Qed.

(** *** The monitor worker *)

(** X2.  The worker's cache of previous values is never written: for
    every backend, driver, starting state and sequence of polls, the
    worker ends with an empty cache and has published no record of level
    input. *)
Theorem monitor_cache_is_never_written b raises polls w :
  (input_monitor_worker b raises polls w).1 = Ret ∅ ∧
  edge_events (input_monitor_worker b raises polls w).2 = edge_events w.
Proof.
  unfold input_monitor_worker.
  enough (wp (monitor_loop b raises polls ∅)
             (λ prev w', prev = ∅ ∧ edge_events w' = edge_events w)
             (λ _ _, False) w) as H.
  { apply wp_run in H.
    destruct (monitor_loop b raises polls ∅ w) as [[prev|e] w']; simpl in *; [|done].
    by destruct H as [-> ?]. }
  revert w. induction polls as [|levels rest IH]; intros w; simpl.
  - by apply wp_ret.
  - apply wp_bind, wp_gets. destruct (monitor_running w); [|by apply wp_ret].
    apply wp_bind.
    eapply wp_mono; [apply wp_monitor_iteration_empty| |]; simpl; [|done].
    intros prev w' [-> Hw']. eapply wp_mono; [apply IH| |]; simpl; [|done].
    intros prev w'' [-> Hw'']. split; [done|]. by rewrite Hw''.
Qed.

Section MonitorFrame.
Context {X : Type} (f : world → X).
Hypothesis f_push : ∀ c w, f (push_call c w) = f w.
Hypothesis f_queue : ∀ q w, f (set_event_queue q w) = f w.

Lemma keeps_read_pin_value b raises levels pin :
  keeps f (read_pin_value b raises levels pin).
Proof.
  unfold read_pin_value, mock_input. destruct b.
  - apply keeps_bind; [apply keeps_gets|]. intros ps.
    destruct (ps !! pin ≫= device).
    + apply keeps_bind; [by apply keeps_hw|]. intros _. apply keeps_ret.
    + apply keeps_ret.
  - apply keeps_bind; [by apply keeps_hw|]. intros _. apply keeps_ret.
  - apply keeps_bind; [apply keeps_gets|]. intros ?. apply keeps_ret.
Qed.

Lemma keeps_monitor_pin b raises levels pin prev :
  keeps f (monitor_pin b raises levels pin prev).
Proof.
  unfold monitor_pin. apply keeps_bind; [apply keeps_gets|]. intros ps.
  destruct (ps !! pin) as [[[] v p d]|]; try apply keeps_ret.
  apply keeps_try.
  - apply keeps_bind; [apply keeps_read_pin_value|]. intros v'. cbv zeta.
    destruct (negb _); [|apply keeps_ret].
    apply keeps_bind; [by apply keeps_log_event|]. intros _. apply keeps_ret.
  - intros e. apply keeps_bind; [by apply keeps_log_event|]. intros _. apply keeps_ret.
Qed.

Lemma keeps_monitor_pins b raises levels pins prev :
  keeps f (monitor_pins b raises levels pins prev).
Proof.
  revert prev. induction pins as [|pin rest IH]; intros prev; simpl.
  - apply keeps_ret.
  - apply keeps_bind; [apply keeps_monitor_pin|]. intros prev'. apply IH.
Qed.

Lemma keeps_monitor_loop b raises polls prev :
  keeps f (monitor_loop b raises polls prev).
Proof.
  revert prev. induction polls as [|levels rest IH]; intros prev; simpl.
  - apply keeps_ret.
  - apply keeps_bind; [apply keeps_gets|]. intros running.
    destruct running; [|apply keeps_ret].
    apply keeps_bind; [|intros prev'; apply IH].
    unfold monitor_iteration. apply keeps_try.
    + apply keeps_bind; [apply keeps_gets|]. intros mon.
      apply keeps_bind; [apply keeps_monitor_pins|]. intros prev'.
      apply keeps_bind; [by apply keeps_sleep|]. intros _. apply keeps_ret.
    + intros e. apply keeps_bind; [by apply keeps_log_event|]. intros _.
      apply keeps_bind; [by apply keeps_sleep|]. intros _. apply keeps_ret.
Qed.

End MonitorFrame.

(** X3.  The worker only observes: whatever it reads and however long it
    runs, it leaves the pin states, the PWM states, the monitor set and
    the running flag as they were. *)
Theorem monitor_worker_only_observes b raises polls w :
  let w' := (input_monitor_worker b raises polls w).2 in
  pin_states w' = pin_states w ∧
  pwm_devices w' = pwm_devices w ∧
  input_monitors w' = input_monitors w ∧
  monitor_running w' = monitor_running w.
Proof.
  unfold input_monitor_worker. repeat split.
  - by apply (keeps_monitor_loop pin_states).
  - by apply (keeps_monitor_loop pwm_devices).
  - by apply (keeps_monitor_loop input_monitors).
  - by apply (keeps_monitor_loop monitor_running).
Qed.

(** What a computation keeps, as a rule of the calculus. *)
Lemma wp_keeps {X A} (f : world → X) (m : M A) Q E w :
  keeps f m →
  (∀ a w', f w' = f w → Q a w') →
  (∀ e w', f w' = f w → E e w') →
  wp m Q E w.
Proof.
  intros Hf HQ HE. unfold wp. specialize (Hf w).
  destruct (m w) as [[a|e] w']; auto.
Qed.

(** The loop does nothing once the running flag is down. *)
Lemma monitor_loop_stopped b raises polls prev w :
  monitor_running w = false →
  monitor_loop b raises polls prev w = (Ret prev, w).
Proof.
  intros Hrun. destruct polls as [|levels rest]; simpl; [done|].
  unfold mbind, M_bind, gets. by rewrite Hrun.
Qed.

Lemma keeps_running_cleanup_pin raises pin :
  keeps monitor_running (cleanup_pin raises pin).
Proof. unfold cleanup_pin. keeps_with fail. Qed.

(** No request other than reset touches the running flag, and reset
    lowers it (line 112). *)
Lemma run_op_running b raises o w :
  monitor_running (run_op b raises o w).2
  = match o with Reset => false | _ => monitor_running w end.
Proof.
  destruct o as [data|data|data|data|]; simpl.
  - revert w. change (keeps monitor_running (set_pin_mode b raises data)).
    unfold set_pin_mode.
    keeps_with ltac:(first [apply keeps_running_cleanup_pin | unfold_helpers]).
  - revert w. change (keeps monitor_running (write_pin b raises data)).
    unfold write_pin. keeps_with ltac:(unfold_helpers).
  - revert w. change (keeps monitor_running (control_pwm b raises data)).
    unfold control_pwm.
    keeps_with ltac:(first [apply keeps_running_cleanup_pin | unfold_helpers]).
  - revert w. change (keeps monitor_running (toggle_monitor data)).
    unfold toggle_monitor. keeps_with fail.
  - enough (wp (reset_all_pins b raises)
               (λ _ w', monitor_running w' = false)
               (λ _ w', monitor_running w' = false) w) as H.
    { apply wp_run in H. by destruct (_.1). }
    unfold reset_all_pins, cleanup_all.
    apply wp_try, wp_bind, wp_modify, wp_bind, wp_bind, wp_modify.
    eapply (wp_keeps monitor_running).
    + keeps_with ltac:(apply keeps_running_cleanup_pin).
    + intros _ w' Hw'. wp_go. by rewrite Hw'.
    + intros e w' Hw'. wp_go. by rewrite Hw'.
Qed.

(** X4.  A reset lowers the worker's running flag and no request raises
    it again: after a reset, whatever requests follow, the worker does
    not poll any more (it returns at once, leaving the world as it is). *)
Theorem monitor_is_dead_after_reset b raises before after polls w :
  let w' := run_ops b raises (before ++ Reset :: after) w in
  monitor_running w' = false ∧
  input_monitor_worker b raises polls w' = (Ret ∅, w').
Proof.
  intros w'.
  assert (monitor_running w' = false) as Hrun.
  { unfold w'. rewrite run_ops_app. cbn [run_ops].
    generalize (run_ops b raises before w). intros w0.
    assert (monitor_running (run_op b raises Reset w0).2 = false) as H0
      by apply (run_op_running b raises Reset).
    revert H0. generalize ((run_op b raises Reset w0).2).
    induction after as [|o rest IH]; intros w1 H1; simpl; [done|].
    apply IH. rewrite run_op_running. by destruct o. }
  split; [done|]. by apply monitor_loop_stopped.
Qed.

(** *** Invariants of the registries *)

(** [cleanup_pin] on any driver: it returns, it can only remove the two
    entries of its pin, and it touches nothing else but the trace and,
    on a failed release, the event queue. *)
Lemma wp_cleanup_pin_shrinks raises pin (Q : unit → world → Prop) E w :
  (∀ w', pin_states w' ⊆ pin_states w →
         pwm_devices w' ⊆ pwm_devices w →
         (∀ p, p ≠ pin → pin_states w' !! p = pin_states w !! p) →
         (∀ p, p ≠ pin → pwm_devices w' !! p = pwm_devices w !! p) →
         input_monitors w' = input_monitors w →
         monitor_running w' = monitor_running w →
         queue_maxsize w' = queue_maxsize w →
         next_handle w' = next_handle w →
         Q tt w') →
  wp (cleanup_pin raises pin) Q E w.
Proof.
  intros HQ. unfold cleanup_pin.
  wp_go; apply HQ; simpl; unfold queue_maxsize; simpl;
    rewrite ?publish_maxsize; try done;
    try apply delete_subseteq;
    try (intros ? ?; by rewrite lookup_delete_ne).
Qed.

Lemma map_Forall_weaken {V} (P : Z → V → Prop) (m1 m2 : gmap Z V) :
  m1 ⊆ m2 → map_Forall P m2 → map_Forall P m1.
Proof. intros Hsub HP i x Hi. apply HP. by eapply lookup_weaken. Qed.

Lemma well_formed_initial b : well_formed b initial_world.
Proof.
  split; [apply map_Forall_empty|]. split; [apply map_Forall_empty|].
  intros pin Hin. by apply not_elem_of_empty in Hin.
Qed.

Lemma well_formed_frame b w w' :
  pin_states w' ⊆ pin_states w → pwm_devices w' ⊆ pwm_devices w →
  input_monitors w' ⊆ input_monitors w →
  well_formed b w → well_formed b w'.
Proof.
  intros Hps Hpw Hmon (H1 & H2 & H3). split; [by eapply map_Forall_weaken|].
  split; [by eapply map_Forall_weaken|]. intros pin Hin. apply H3. set_solver.
Qed.

Ltac wf_frame :=
  lazymatch goal with
  | H : well_formed _ _ |- well_formed _ _ =>
      eapply well_formed_frame; [| | |exact H]; simpl;
      repeat match goal with Hs : _ = _ |- _ => rewrite Hs end;
      try done; try (etrans; [eassumption|]); try done; try apply delete_subseteq
  end.

Lemma well_formed_cleanup_pin b raises pin w :
  well_formed b w →
  wp (cleanup_pin raises pin) (λ _, well_formed b) (λ _ _, False) w.
Proof.
  intros Hwf. apply wp_cleanup_pin_shrinks.
  intros w' Hps Hpw _ _ Hmon _ _ _.
  eapply well_formed_frame; [done|done| |done]. by rewrite Hmon.
Qed.

Lemma parse_mode_Some s m : parse_mode s = Some m → s = mode_string m.
Proof.
  unfold parse_mode.
  destruct (String.eqb s "input") eqn:H1; [apply String.eqb_eq in H1|].
  { intros [= <-]. done. }
  destruct (String.eqb s "output") eqn:H2; [apply String.eqb_eq in H2|done].
  intros [= <-]. done.
Qed.

(** The mock has no attribute named after a mode (line 45), so line 276
    raises for every mode that passed the check of line 226. *)
Lemma mock_has_no_mode_attr s m :
  parse_mode s = Some m → mock_has_attr (upper s) = false.
Proof. intros ->%parse_mode_Some. by destruct m. Qed.

Ltac valid_pin_hyp :=
  repeat match goal with
  | H : negb (bool_decide (_ ∈ VALID_PINS)) = false |- _ =>
      apply negb_false_iff, bool_decide_eq_true in H
  end.

Ltac mock_absurd :=
  match goal with
  | H : mock_has_attr (upper ?s) = true, H' : parse_mode ?s = Some _ |- _ =>
      rewrite (mock_has_no_mode_attr _ _ H') in H; discriminate
  end.

Lemma well_formed_set_pin_mode b raises data w :
  well_formed b w →
  wp (set_pin_mode b raises data) (λ _, well_formed b) (λ _, well_formed b) w.
Proof.
  intros Hwf. unfold set_pin_mode.
  wp_go; try done.
  all: valid_pin_hyp.
  all: apply wp_cleanup_pin_shrinks; intros w' Hps Hpw _ _ Hmon _ _ _.
  all: assert (well_formed b w') as Hwf'
         by (eapply well_formed_frame; [done|done| |done]; by rewrite Hmon).
  all: wp_go; try done; try mock_absurd.
  all: destruct Hwf' as (H1 & H2 & H3); split; [|by split]; simpl.
  all: apply map_Forall_insert_2; [|done]; split; [done|].
  all: subst b; repeat split; simpl; eauto; done.
Qed.

Lemma map_Forall_alter {V} (P : Z → V → Prop) (f : V → V) (m : gmap Z V) i :
  map_Forall P m → (∀ x, m !! i = Some x → P i x → P i (f x)) →
  map_Forall P (alter f i m).
Proof.
  intros HP Hf j y. destruct (decide (i = j)) as [->|Hne].
  - rewrite lookup_alter_eq. destruct (m !! j) as [x|] eqn:Hx; simpl; [|done].
    intros [= <-]. apply Hf; [done|]. by apply HP.
  - rewrite lookup_alter_ne by done. apply HP.
Qed.

(** A computation that leaves the registries and the monitor set alone. *)
Lemma wp_frame3 {A} (m : M A) Q E w :
  keeps pin_states m → keeps pwm_devices m → keeps input_monitors m →
  (∀ a w', pin_states w' = pin_states w → pwm_devices w' = pwm_devices w →
           input_monitors w' = input_monitors w → Q a w') →
  (∀ e w', pin_states w' = pin_states w → pwm_devices w' = pwm_devices w →
           input_monitors w' = input_monitors w → E e w') →
  wp m Q E w.
Proof.
  intros Hps Hpw Hmon HQ HE. unfold wp.
  specialize (Hps w). specialize (Hpw w). specialize (Hmon w).
  destruct (m w) as [[a|e] w']; auto.
Qed.

Lemma well_formed_same b w w' :
  pin_states w' = pin_states w → pwm_devices w' = pwm_devices w →
  input_monitors w' = input_monitors w →
  well_formed b w → well_formed b w'.
Proof. unfold well_formed. by intros -> -> ->. Qed.

Lemma well_formed_write_pin b raises data w :
  well_formed b w →
  wp (write_pin b raises data) (λ _, well_formed b) (λ _, well_formed b) w.
Proof.
  intros Hwf. unfold write_pin.
  wp_go; try done.
  all: try (apply wp_frame3;
    [keeps_with ltac:(unfold_helpers) | keeps_with ltac:(unfold_helpers)
    | keeps_with ltac:(unfold_helpers) | |];
    intros ? w' Hps Hpw Hmon;
    pose proof (well_formed_same _ _ _ Hps Hpw Hmon Hwf) as Hwf';
    wp_go; try done).
  all: split; [|split]; simpl.
  all: repeat match goal with H : well_formed _ _ |- _ => destruct H as (? & ? & ?) end.
  all: repeat match goal with
         | Hs : pin_states _ = pin_states _ |- _ => rewrite Hs in *; clear Hs
         | Hs : pwm_devices _ = pwm_devices _ |- _ => rewrite Hs in *; clear Hs
         | Hs : input_monitors _ = input_monitors _ |- _ => rewrite Hs in *; clear Hs
         end.
  all: simplify_eq; try done.
  all: apply map_Forall_insert_2; [|done].
  all: match goal with
       | Hl : pin_states _ !! ?z = Some ?st, HF : map_Forall _ (pin_states _) |- _ =>
           destruct (HF z st Hl) as [? (Hv & Hi & Ho & Hd)]
       end.
  all: split; [done|]; repeat split; simpl in *; auto; try done.
  all: try (destruct (String.eqb _ _); auto).
Qed.

Ltac open_wf :=
  repeat match goal with H : well_formed _ _ |- _ => destruct H as (? & ? & ?) end.

Lemma well_formed_control_pwm b raises data w :
  well_formed b w →
  wp (control_pwm b raises data) (λ _, well_formed b) (λ _, well_formed b) w.
Proof.
  intros Hwf. unfold control_pwm.
  wp_go; try done.
  all: valid_pin_hyp.
  all: try (apply wp_cleanup_pin_shrinks; intros w' Hps Hpw _ _ Hmon _ _ _;
            assert (input_monitors w' ⊆ input_monitors w) as Hmon' by (by rewrite Hmon);
            pose proof (well_formed_frame _ _ _ Hps Hpw Hmon' Hwf) as Hwf';
            wp_go; try done).
  all: split; [|split]; simpl; open_wf; try done.
  all: try (by apply map_Forall_delete).
  all: try (apply map_Forall_insert_2; [|done]; split; [done|];
            split; simpl; eauto; done).
  all: repeat (apply map_Forall_alter; [|intros x Hx [? [? ?]]]); try done.
  all: try (split; [done|]; split; simpl; done).
Qed.

Lemma well_formed_toggle_monitor b data w :
  well_formed b w →
  wp (toggle_monitor data) (λ _, well_formed b) (λ _, well_formed b) w.
Proof.
  intros Hwf. unfold toggle_monitor.
  wp_go; try done.
  all: split; [|split]; simpl; open_wf; try done.
  - intros pin [->%elem_of_singleton|Hin]%elem_of_union; [|by auto].
    match goal with
    | Hl : pin_states _ !! ?z = Some ?st, HF : map_Forall _ (pin_states _) |- _ =>
        by destruct (HF z st Hl)
    end.
  - intros pin [Hin _]%elem_of_difference. auto.
Qed.

Lemma well_formed_reset_all_pins b raises w :
  well_formed b w →
  wp (reset_all_pins b raises) (λ _, well_formed b) (λ _, well_formed b) w.
Proof.
  intros (H1 & H2 & H3). unfold reset_all_pins, cleanup_all.
  apply wp_try, wp_bind, wp_modify, wp_bind, wp_bind, wp_modify, wp_bind, wp_gets.
  apply wp_bind, (wp_for_each (well_formed b)).
  { split; [done|]. split; [done|]. simpl. intros pin Hin.
    by apply not_elem_of_empty in Hin. }
  { intros pin w0 H0. eapply wp_mono; [by apply well_formed_cleanup_pin| |]; done. }
  intros w1 Hw1. apply wp_bind, wp_gets.
  apply wp_bind, (wp_for_each (well_formed b)); [done| |].
  { intros pin w0 H0. eapply wp_mono; [by apply well_formed_cleanup_pin| |]; done. }
  intros w2 Hw2. wp_go; done.
Qed.

Lemma well_formed_run_op b raises o w :
  well_formed b w → well_formed b (run_op b raises o w).2.
Proof.
  intros Hwf.
  destruct o as [data|data|data|data|]; simpl;
    [ pose proof (well_formed_set_pin_mode b raises data w Hwf) as H
    | pose proof (well_formed_write_pin b raises data w Hwf) as H
    | pose proof (well_formed_control_pwm b raises data w Hwf) as H
    | pose proof (well_formed_toggle_monitor b data w Hwf) as H
    | pose proof (well_formed_reset_all_pins b raises w Hwf) as H ];
    apply wp_run in H; by destruct (_.1).
Qed.

Lemma well_formed_run_ops b raises ops :
  well_formed b (run_ops b raises ops initial_world).
Proof.
  induction ops as [|o ops IH] using rev_ind; [apply well_formed_initial|].
  rewrite run_ops_app. by apply well_formed_run_op.
Qed.

(** X5.  Only valid pins ever get an entry: after every sequence of
    requests, on every backend and driver, each pin with a pin state or
    a PWM state and each monitored pin is one of [VALID_PINS], so the
    state query, which walks [VALID_PINS], shows every entry there is. *)
Theorem registries_hold_valid_pins_only b raises ops pin :
  let w := run_ops b raises ops initial_world in
  is_Some (pin_states w !! pin) ∨ is_Some (pwm_devices w !! pin)
  ∨ pin ∈ input_monitors w →
  pin ∈ VALID_PINS.
Proof.
  intros w. destruct (well_formed_run_ops b raises ops) as (H1 & H2 & H3).
  intros [[st Hst]|[[pwm Hpwm]|Hin]].
  - by destruct (H1 pin st Hst).
  - by destruct (H2 pin pwm Hpwm).
  - by apply H3.
Qed.

Lemma registries_hold_valid_pins_only_witness : 17 ∈ VALID_PINS.
Proof.
  apply (registries_hold_valid_pins_only gpiozero healthy
           [Configure (configure_request 17 "input" "down");
            Monitor (monitor_request 17 true)] 17).
  right. right. vm_compute. reflexivity.
Defined.

(** X6.  The shape of every stored pin state, after every sequence of
    requests on every backend and driver: the stored value is 0 or 1, an
    input's stored value is 0 (writes never reach it), an output's pull
    is 'off', and the entry holds a device object exactly on the
    gpiozero backend. *)
Theorem pin_states_keep_their_shape b raises ops pin st :
  pin_states (run_ops b raises ops initial_world) !! pin = Some st →
  (value st = 0 ∨ value st = 1) ∧
  (mode st = input → value st = 0) ∧
  (mode st = output → pull st = "off") ∧
  (is_Some (device st) ↔ b = gpiozero).
Proof.
  intros Hst. destruct (well_formed_run_ops b raises ops) as (H1 & _ & _).
  destruct (H1 pin st Hst) as [_ (Hv & Hi & Ho & Hd)].
  repeat split; auto.
  - intros [d Hdev]. destruct b; [done|congruence..].
  - intros ->. destruct Hd as [h ->]. by eexists.
Qed.

Lemma pin_states_keep_their_shape_witness :
  let st := mk_pin_state output 1 "off" (Some (GpiozeroDevice 0%nat)) in
  (value st = 0 ∨ value st = 1) ∧
  (mode st = input → value st = 0) ∧
  (mode st = output → pull st = "off") ∧
  (is_Some (device st) ↔ gpiozero = gpiozero).
Proof.
  apply (pin_states_keep_their_shape gpiozero healthy
           [Configure (configure_request 17 "output" "up");
            Write (write_request 17 "HIGH")] 17).
  vm_compute. reflexivity.
Defined.

(** X7.  Every stored duty cycle has passed the handler's range test:
    after every sequence of requests, on every backend and driver, the
    test [duty_cycle < 0 or duty_cycle > 100] of lines 373 and 436 is
    false of the duty cycle of every PWM state, also after updates that
    were rejected or that failed. *)
Theorem stored_duty_cycle_passed_range_test b raises ops pin pwm :
  pwm_devices (run_ops b raises ops initial_world) !! pin = Some pwm →
  duty_out_of_range (duty_cycle pwm) = false.
Proof.
  intros Hpwm. destruct (well_formed_run_ops b raises ops) as (_ & H2 & _).
  by destruct (H2 pin pwm Hpwm) as [_ [Hd _]].
Qed.

Lemma stored_duty_cycle_passed_range_test_witness :
  let pwm := mk_pwm_info (GpiozeroDevice 0%nat) (inject_Z 500) (inject_Z 50) in
  duty_out_of_range (duty_cycle pwm) = false.
Proof.
  apply (stored_duty_cycle_passed_range_test gpiozero healthy
           [Pwm (pwm_request 18 "start" (Some (inject_Z 1000)) (Some (inject_Z 50)));
            Pwm bad_update] 18
           (mk_pwm_info (GpiozeroDevice 0%nat) (inject_Z 500) (inject_Z 50))).
  vm_compute. reflexivity.
Defined.

(** *** The built-in mock backend *)

Lemma subseteq_empty_map {V} (m m0 : gmap Z V) : m ⊆ m0 → m0 = ∅ → m = ∅.
Proof.
  intros Hsub ->. apply map_empty. intros i.
  destruct (m !! i) as [x|] eqn:Hi; [|done].
  eapply lookup_weaken in Hi; [|done]. by rewrite lookup_empty in Hi.
Qed.

Lemma nothing_configured_run_op_mock raises o w :
  nothing_configured w → nothing_configured (run_op mock raises o w).2.
Proof.
  intros (Hps & Hpw & Hmon).
  enough (wp (run_op mock raises o) (λ _, nothing_configured)
             (λ _, nothing_configured) w) as H.
  { apply wp_run in H. by destruct (_.1). }
  destruct o as [data|data|data|data|]; simpl.
  - unfold set_pin_mode. wp_go; try done.
    all: apply wp_cleanup_pin_shrinks; intros w' Hps' Hpw' _ _ Hmon' _ _ _.
    all: assert (nothing_configured w') as Hw'
           by (split; [by eapply subseteq_empty_map|];
               split; [by eapply subseteq_empty_map|congruence]).
    all: wp_go; try done; mock_absurd.
  - unfold write_pin. wp_go; try done.
    all: rewrite Hps, lookup_empty in *; done.
  - unfold control_pwm. wp_go; try done.
    all: try (rewrite Hpw, lookup_empty in *; done).
    all: apply wp_cleanup_pin_shrinks; intros w' Hps' Hpw' _ _ Hmon' _ _ _.
    all: assert (nothing_configured w') as Hw'
           by (split; [by eapply subseteq_empty_map|];
               split; [by eapply subseteq_empty_map|congruence]).
    all: wp_go; done.
  - unfold toggle_monitor. wp_go; try done.
    all: rewrite Hps, lookup_empty in *; done.
  - unfold reset_all_pins, cleanup_all.
    apply wp_try, wp_bind, wp_modify, wp_bind, wp_bind, wp_modify, wp_bind, wp_gets.
    simpl. rewrite Hps, map_to_list_empty. simpl.
    apply wp_bind, wp_ret, wp_bind, wp_gets. simpl.
    rewrite Hpw, map_to_list_empty. simpl.
    wp_go; done.
Qed.

Lemma nothing_configured_run_ops_mock raises ops :
  nothing_configured (run_ops mock raises ops initial_world).
Proof.
  induction ops as [|o ops IH] using rev_ind; [done|].
  rewrite run_ops_app. by apply nothing_configured_run_op_mock.
Qed.

(** X8.  On the built-in mock backend nothing can ever be configured:
    after every sequence of requests there is no pin state, no PWM state
    and no monitored pin, and the state query reports every valid pin as
    unconfigured. *)
Theorem mock_backend_configures_nothing raises ops is_pi levels :
  let w := run_ops mock raises ops initial_world in
  pin_states w = ∅ ∧ pwm_devices w = ∅ ∧ input_monitors w = ∅ ∧
  get_pins mock is_pi raises levels w
  = (Ret (Pins (map (λ pin, (pin, unconfigured_json)) VALID_PINS)
               mock is_pi VALID_PINS PWM_PINS), w).
Proof.
  intros w. destruct (nothing_configured_run_ops_mock raises ops) as (Hps & Hpw & Hmon).
  repeat split; try done. by apply get_pins_unconfigured.
Qed.



(** *** Handles *)

Lemma handles_distinct_initial : handles_distinct initial_world.
Proof.
  unfold handles_distinct, pin_handle, pwm_handle. simpl.
  repeat split; intros *; rewrite ?lookup_empty; done.
Qed.

Lemma pin_handle_weaken w w' pin h :
  pin_states w' ⊆ pin_states w → pin_handle w' pin = Some h → pin_handle w pin = Some h.
Proof.
  unfold pin_handle. intros Hsub.
  destruct (pin_states w' !! pin) as [st|] eqn:Hst; [|done].
  by rewrite (lookup_weaken _ _ _ _ Hst Hsub).
Qed.

Lemma pwm_handle_weaken w w' pin h :
  pwm_devices w' ⊆ pwm_devices w → pwm_handle w' pin = Some h → pwm_handle w pin = Some h.
Proof.
  unfold pwm_handle. intros Hsub.
  destruct (pwm_devices w' !! pin) as [st|] eqn:Hst; [|done].
  by rewrite (lookup_weaken _ _ _ _ Hst Hsub).
Qed.

(** Removing entries and issuing handles keep the handles distinct. *)
Lemma handles_distinct_frame w w' :
  pin_states w' ⊆ pin_states w → pwm_devices w' ⊆ pwm_devices w →
  (next_handle w <= next_handle w')%nat →
  handles_distinct w → handles_distinct w'.
Proof.
  intros Hps Hpw Hn (H1 & H2 & H3 & H4 & H5).
  repeat split.
  - intros pin h Hh%(pin_handle_weaken w); [|done]. apply H1 in Hh. lia.
  - intros pin h Hh%(pwm_handle_weaken w); [|done]. apply H2 in Hh. lia.
  - intros p1 p2 h Ha%(pin_handle_weaken w) Hb%(pin_handle_weaken w); eauto.
  - intros p1 p2 h Ha%(pwm_handle_weaken w) Hb%(pwm_handle_weaken w); eauto.
  - intros p1 p2 h Ha%(pin_handle_weaken w) Hb%(pwm_handle_weaken w); eauto.
Qed.

(** A new pin state that holds the handle just issued. *)
Lemma handles_distinct_insert_pin w w' pin st :
  pin_states w' = <[pin := st]> (pin_states w) →
  pwm_devices w' ⊆ pwm_devices w →
  (next_handle w < next_handle w')%nat →
  dev_handle <$> device st = Some (next_handle w) →
  handles_distinct w → handles_distinct w'.
Proof.
  intros Hps Hpw Hn Hdev (H1 & H2 & H3 & H4 & H5).
  assert (∀ p h, pin_handle w' p = Some h →
            (p = pin ∧ h = next_handle w) ∨ (p ≠ pin ∧ pin_handle w p = Some h)) as Hcase.
  { intros p h. unfold pin_handle. rewrite Hps.
    destruct (decide (p = pin)) as [->|Hne].
    - rewrite lookup_insert_eq. simpl. rewrite Hdev. intros [= <-]. by left.
    - rewrite lookup_insert_ne by done. by right. }
  repeat split.
  - intros p h [[_ ->]|[_ Hh]]%Hcase; [lia|]. apply H1 in Hh. lia.
  - intros p h Hh%(pwm_handle_weaken w); [|done]. apply H2 in Hh. lia.
  - intros p1 p2 h [[-> ->]|[? Ha]]%Hcase [[-> Hb]|[? Hb]]%Hcase; try done.
    + apply H1 in Hb. lia.
    + apply H1 in Ha. lia.
    + eauto.
  - intros p1 p2 h Ha%(pwm_handle_weaken w) Hb%(pwm_handle_weaken w); eauto.
  - intros p1 p2 h [[-> ->]|[? Ha]]%Hcase Hb%(pwm_handle_weaken w); try done.
    + apply H2 in Hb. lia.
    + eauto.
Qed.

(** A new pin state that holds no device. *)
Lemma handles_distinct_insert_bare w w' pin st :
  pin_states w' = <[pin := st]> (pin_states w) →
  pwm_devices w' ⊆ pwm_devices w →
  (next_handle w <= next_handle w')%nat →
  device st = None →
  handles_distinct w → handles_distinct w'.
Proof.
  intros Hps Hpw Hn Hdev (H1 & H2 & H3 & H4 & H5).
  assert (∀ p h, pin_handle w' p = Some h → pin_handle w p = Some h) as Hcase.
  { intros p h. unfold pin_handle. rewrite Hps.
    destruct (decide (p = pin)) as [->|Hne].
    - rewrite lookup_insert_eq. simpl. by rewrite Hdev.
    - by rewrite lookup_insert_ne by done. }
  repeat split.
  - intros p h Hh%Hcase. apply H1 in Hh. lia.
  - intros p h Hh%(pwm_handle_weaken w); [|done]. apply H2 in Hh. lia.
  - intros p1 p2 h Ha%Hcase Hb%Hcase; eauto.
  - intros p1 p2 h Ha%(pwm_handle_weaken w) Hb%(pwm_handle_weaken w); eauto.
  - intros p1 p2 h Ha%Hcase Hb%(pwm_handle_weaken w); eauto.
Qed.

(** A new PWM state that holds the handle just issued. *)
Lemma handles_distinct_insert_pwm w w' pin pwm :
  pin_states w' ⊆ pin_states w →
  pwm_devices w' = <[pin := pwm]> (pwm_devices w) →
  (next_handle w < next_handle w')%nat →
  dev_handle (pwm_dev pwm) = next_handle w →
  handles_distinct w → handles_distinct w'.
Proof.
  intros Hps Hpw Hn Hdev (H1 & H2 & H3 & H4 & H5).
  assert (∀ p h, pwm_handle w' p = Some h →
            (p = pin ∧ h = next_handle w) ∨ (p ≠ pin ∧ pwm_handle w p = Some h)) as Hcase.
  { intros p h. unfold pwm_handle. rewrite Hpw.
    destruct (decide (p = pin)) as [->|Hne].
    - rewrite lookup_insert_eq. simpl. rewrite Hdev. intros [= <-]. by left.
    - rewrite lookup_insert_ne by done. by right. }
  repeat split.
  - intros p h Hh%(pin_handle_weaken w); [|done]. apply H1 in Hh. lia.
  - intros p h [[_ ->]|[_ Hh]]%Hcase; [lia|]. apply H2 in Hh. lia.
  - intros p1 p2 h Ha%(pin_handle_weaken w) Hb%(pin_handle_weaken w); eauto.
  - intros p1 p2 h [[-> ->]|[? Ha]]%Hcase [[-> Hb]|[? Hb]]%Hcase; try done.
    + apply H2 in Hb. lia.
    + apply H2 in Ha. lia.
    + eauto.
  - intros p1 p2 h Ha%(pin_handle_weaken w) [[-> ->]|[? Hb]]%Hcase; try done.
    + apply H1 in Ha. lia.
    + eauto.
Qed.

(** Changes that leave every entry's handle as it was. *)
Lemma handles_distinct_same w w' :
  (∀ p, pin_handle w' p = pin_handle w p) →
  (∀ p, pwm_handle w' p = pwm_handle w p) →
  (next_handle w <= next_handle w')%nat →
  handles_distinct w → handles_distinct w'.
Proof.
  intros Hps Hpw Hn (H1 & H2 & H3 & H4 & H5).
  repeat split; intros *; rewrite ?Hps, ?Hpw; eauto.
  - intros Hh%H1. lia.
  - intros Hh%H2. lia.
Qed.

Ltac hd_leaf :=
  match goal with
  | Hhd : handles_distinct ?W |- handles_distinct _ =>
      first
        [ by (eapply (handles_distinct_frame W); [| | |exact Hhd]; simpl;
              try done; try apply delete_subseteq; try lia)
        | by (eapply (handles_distinct_insert_pin W);
              [reflexivity|simpl; try done; apply delete_subseteq|simpl; lia|reflexivity|exact Hhd])
        | by (eapply (handles_distinct_insert_bare W);
              [reflexivity|simpl; try done; apply delete_subseteq|simpl; lia|reflexivity|exact Hhd])
        | by (eapply (handles_distinct_insert_pwm W);
              [simpl; try done; apply delete_subseteq|reflexivity|simpl; lia|reflexivity|exact Hhd]) ]
  end.

Lemma handles_distinct_cleanup_pin raises pin w :
  handles_distinct w →
  wp (cleanup_pin raises pin) (λ _, handles_distinct) (λ _ _, False) w.
Proof.
  intros Hhd. apply wp_cleanup_pin_shrinks.
  intros w' Hps Hpw _ _ _ _ _ Hn.
  eapply handles_distinct_frame; [done|done| |done]. lia.
Qed.

Lemma handles_distinct_set_pin_mode b raises data w :
  handles_distinct w →
  wp (set_pin_mode b raises data) (λ _, handles_distinct) (λ _, handles_distinct) w.
Proof.
  intros Hhd. unfold set_pin_mode.
  wp_go; try done.
  all: apply wp_cleanup_pin_shrinks; intros w' Hps Hpw _ _ _ _ _ Hn.
  all: assert (handles_distinct w') as Hhd'
         by (eapply handles_distinct_frame; [done|done| |done]; lia).
  all: clear Hhd.
  all: wp_go; try done; try mock_absurd.
  all: hd_leaf.
Qed.

Lemma wp_frame_handles {A} (m : M A) Q E w :
  keeps pin_states m → keeps pwm_devices m → keeps next_handle m →
  (∀ a w', pin_states w' = pin_states w → pwm_devices w' = pwm_devices w →
           next_handle w' = next_handle w → Q a w') →
  (∀ e w', pin_states w' = pin_states w → pwm_devices w' = pwm_devices w →
           next_handle w' = next_handle w → E e w') →
  wp m Q E w.
Proof.
  intros Hps Hpw Hn HQ HE. unfold wp.
  specialize (Hps w). specialize (Hpw w). specialize (Hn w).
  destruct (m w) as [[a|e] w']; auto.
Qed.

Ltac hd_same z :=
  match goal with
  | Hhd : handles_distinct ?W |- handles_distinct _ =>
      eapply (handles_distinct_same W); [| | |exact Hhd]; simpl;
      [ let q := fresh "q" in
        intros q; unfold pin_handle; simpl;
        destruct (decide (q = z)) as [->|];
        repeat match goal with Hs : pin_states _ = _ |- _ => rewrite Hs in * end;
        by simplify_map_eq
      | let q := fresh "q" in
        intros q; unfold pwm_handle; simpl;
        repeat match goal with Hs : pwm_devices _ = _ |- _ => rewrite Hs in * end;
        done
      | lia ]
  end.

Lemma handles_distinct_write_pin b raises data w :
  handles_distinct w →
  wp (write_pin b raises data) (λ _, handles_distinct) (λ _, handles_distinct) w.
Proof.
  intros Hhd. unfold write_pin.
  wp_go; try done.
  all: try (apply wp_frame_handles;
    [keeps_with ltac:(unfold_helpers) | keeps_with ltac:(unfold_helpers)
    | keeps_with ltac:(unfold_helpers) | |];
    intros ? w' Hps Hpw Hn; wp_go; try done).
  all: try hd_leaf.
  all: try (eapply (handles_distinct_frame w); [| | |exact Hhd]; simpl;
            rewrite ?Hps, ?Hpw; try done; lia).
  all: match goal with H : req_pin _ = Some ?z |- _ => hd_same z end.
Qed.

Ltac hd_alter z :=
  match goal with
  | Hhd : handles_distinct ?W |- handles_distinct _ =>
      eapply (handles_distinct_same W); [| | |exact Hhd]; simpl;
      [ let q := fresh "q" in intros q; reflexivity
      | let q := fresh "q" in
        intros q; unfold pwm_handle; simpl;
        destruct (decide (q = z)) as [->|];
        rewrite ?lookup_alter_eq, ?lookup_alter_ne by done;
        try done;
        repeat match goal with
               | |- context [pwm_devices ?w0 !! z] =>
                   destruct (pwm_devices w0 !! z); simpl
               end; done
      | lia ]
  end.

Lemma handles_distinct_control_pwm b raises data w :
  handles_distinct w →
  wp (control_pwm b raises data) (λ _, handles_distinct) (λ _, handles_distinct) w.
Proof.
  intros Hhd. unfold control_pwm.
  wp_go; try done.
  all: try (apply wp_cleanup_pin_shrinks; intros w' Hps Hpw _ _ _ _ _ Hn;
            assert (handles_distinct w') as Hhd'
              by (eapply (handles_distinct_frame w);
                  [exact Hps|exact Hpw|simpl in *; lia|exact Hhd]);
            clear Hhd; wp_go; try done).
  all: try hd_leaf.
  all: match goal with H : req_pin _ = Some ?z |- _ => hd_alter z end.
Qed.

Lemma handles_distinct_toggle_monitor data w :
  handles_distinct w →
  wp (toggle_monitor data) (λ _, handles_distinct) (λ _, handles_distinct) w.
Proof.
  intros Hhd. unfold toggle_monitor. wp_go; try done; hd_leaf.
Qed.

Lemma handles_distinct_reset_all_pins b raises w :
  handles_distinct w →
  wp (reset_all_pins b raises) (λ _, handles_distinct) (λ _, handles_distinct) w.
Proof.
  intros Hhd. unfold reset_all_pins, cleanup_all.
  apply wp_try, wp_bind, wp_modify, wp_bind, wp_bind, wp_modify, wp_bind, wp_gets.
  apply wp_bind, (wp_for_each handles_distinct); [done| |].
  { intros pin w0 H0. eapply wp_mono; [by apply handles_distinct_cleanup_pin| |]; done. }
  intros w1 Hw1. apply wp_bind, wp_gets.
  apply wp_bind, (wp_for_each handles_distinct); [done| |].
  { intros pin w0 H0. eapply wp_mono; [by apply handles_distinct_cleanup_pin| |]; done. }
  intros w2 Hw2. wp_go; hd_leaf.
Qed.

Lemma handles_distinct_run_ops b raises ops :
  handles_distinct (run_ops b raises ops initial_world).
Proof.
  induction ops as [|o ops IH] using rev_ind; [apply handles_distinct_initial|].
  rewrite run_ops_app. cbn [run_ops].
  set (w := run_ops b raises ops initial_world) in *.
  destruct o as [data|data|data|data|]; simpl;
    [ pose proof (handles_distinct_set_pin_mode b raises data w IH) as H
    | pose proof (handles_distinct_write_pin b raises data w IH) as H
    | pose proof (handles_distinct_control_pwm b raises data w IH) as H
    | pose proof (handles_distinct_toggle_monitor data w IH) as H
    | pose proof (handles_distinct_reset_all_pins b raises w IH) as H ];
    apply wp_run in H; by destruct (_.1).
Qed.

(** X10.  No two entries share a driver object: after every sequence of
    requests, on every backend and driver, the handles held by the pin
    states and the PWM states are pairwise different, and each is one
    the application was issued. *)
Theorem registry_handles_are_distinct b raises ops :
  let w := run_ops b raises ops initial_world in
  (∀ p1 p2 h, pin_handle w p1 = Some h → pin_handle w p2 = Some h → p1 = p2) ∧
  (∀ p1 p2 h, pwm_handle w p1 = Some h → pwm_handle w p2 = Some h → p1 = p2) ∧
  (∀ p1 p2 h, pin_handle w p1 = Some h → pwm_handle w p2 ≠ Some h) ∧
  (∀ p h, pin_handle w p = Some h ∨ pwm_handle w p = Some h →
          (h < next_handle w)%nat).
Proof.
  intros w. destruct (handles_distinct_run_ops b raises ops)
    as (H1 & H2 & H3 & H4 & H5).
  split; [exact H3|]. split; [exact H4|]. split.
  - intros p1 p2 h Ha Hb. by eapply H5.
  - intros p h [?|?]; eauto.
Qed.

Lemma registry_handles_are_distinct_witness :
  let w := run_ops gpiozero healthy
             [Configure (configure_request 17 "output" "off");
              Configure (configure_request 18 "input" "up");
              Pwm (pwm_request 12 "start" None None)] initial_world in
  pwm_handle w 12 ≠ Some 0%nat.
Proof.
  intros w.
  apply (proj1 (proj2 (proj2 (registry_handles_are_distinct gpiozero healthy _))) 17 12).
  vm_compute. reflexivity.
Defined.

(** *** What each request does *)

(** X11.  Configure on gpiozero or RPi.GPIO with a driver that does not
    raise: a valid pin and mode are answered with success; the pin gets
    a fresh pin state with value 0, pull 'off' for an output and the
    lower-cased requested pull for an input; its PWM state, if any, is
    gone; no other pin and no monitored pin is touched. *)
Theorem configure_records_fresh_state b raises pin m pull pm w :
  b ≠ mock → never_raises raises → pin ∈ VALID_PINS →
  parse_mode (lower m) = Some pm →
  let r := set_pin_mode b raises (configure_request pin m pull) w in
  r.1 = Ret Success ∧
  (∃ dev, pin_states r.2
          = <[pin := mk_pin_state pm 0
                       (match pm with output => "off" | input => lower pull end)
                       dev]> (pin_states w)) ∧
  pwm_devices r.2 = delete pin (pwm_devices w) ∧
  input_monitors r.2 = input_monitors w.
Proof.
  intros Hb Hok Hpin Hm r.
  enough (wp (set_pin_mode b raises (configure_request pin m pull))
             (λ res w', res = Success ∧
                (∃ dev, pin_states w'
                   = <[pin := mk_pin_state pm 0
                                (match pm with output => "off" | input => lower pull end)
                                dev]> (pin_states w)) ∧
                pwm_devices w' = delete pin (pwm_devices w) ∧
                input_monitors w' = input_monitors w)
             (λ _ _, False) w) as H.
  { apply wp_run in H. fold r in H.
    destruct r as [[res|e] w']; simpl in *; [|done]. by destruct H as (-> & ? & ? & ?). }
  unfold set_pin_mode, configure_request. simpl.
  apply wp_try, wp_bind, wp_ret, wp_bind, wp_fmap, wp_ret.
  rewrite bool_decide_true by done. simpl. rewrite Hm.
  apply wp_bind, wp_cleanup_pin_clean; [by intros h|].
  intros w' Hps Hpw Hmon _.
  destruct b; [| |done]; destruct pm; wp_go; try congruence.
  all: split; [done|]; split; [|by split].
  all: eexists; by rewrite Hps, insert_delete_eq.
Qed.

Lemma configure_records_fresh_state_witness :
  let r := set_pin_mode RPi_GPIO healthy (configure_request 4 "INPUT" "Up")
             initial_world in
  r.1 = Ret Success ∧
  pin_states r.2 !! 4 = Some (mk_pin_state input 0 "up" None).
Proof.
  destruct (configure_records_fresh_state RPi_GPIO healthy 4 "INPUT" "Up" input
              initial_world) as (Hr & [dev Hps] & _ & _).
  - discriminate.
  - intros c. reflexivity.
  - apply (bool_decide_unpack _). reflexivity.
  - reflexivity.
  - split; [exact Hr|]. vm_compute. reflexivity.
Defined.

(** X12.  Write high or low on an output pin whose level call does not
    raise: the request is answered with success, exactly one level call
    is made, the stored value becomes 1 or 0, and nothing else in the
    registries changes.  The action is matched without regard to case. *)
Theorem write_level_drives_and_records b raises pin st action (v : bool) w :
  pin_states w !! pin = Some st → mode st = output → drivable b st →
  lower action = (if v then "high" else "low") →
  raises (level_call b pin (device st) v) = false →
  let r := write_pin b raises (write_request pin action) w in
  r.1 = Ret Success ∧
  hw_trace r.2 = hw_trace w ++ [level_call b pin (device st) v] ∧
  pin_states r.2
  = <[pin := mk_pin_state output (if v then 1 else 0) (pull st) (device st)]>
      (pin_states w) ∧
  pwm_devices r.2 = pwm_devices w ∧
  input_monitors r.2 = input_monitors w.
Proof.
  intros Hst Hmode Hdrv Hact Hok r.
  enough (wp (write_pin b raises (write_request pin action))
             (λ res w', res = Success ∧
                hw_trace w' = hw_trace w ++ [level_call b pin (device st) v] ∧
                pin_states w'
                = <[pin := mk_pin_state output (if v then 1 else 0) (pull st)
                             (device st)]> (pin_states w) ∧
                pwm_devices w' = pwm_devices w ∧
                input_monitors w' = input_monitors w)
             (λ _ _, False) w) as H.
  { apply wp_run in H. fold r in H.
    destruct r as [[res|e] w']; simpl in *; [|done].
    by destruct H as (-> & ? & ? & ? & ?). }
  unfold write_pin, write_request. simpl.
  apply wp_try, wp_bind, wp_ret, wp_bind, wp_fmap, wp_ret, wp_bind, wp_gets.
  rewrite Hst. destruct st as [md val pl dev]. simpl in *. subst md.
  rewrite Hact.
  destruct b; [destruct Hdrv as [d Hd]; simpl in Hd; subst dev|..];
    destruct v; simpl in *; wp_go; simplify_eq; try congruence; done.
Qed.

Lemma write_level_drives_and_records_witness :
  let r := write_pin gpiozero healthy (write_request 17 "High") output_17 in
  r.1 = Ret Success ∧
  hw_trace r.2 = hw_trace output_17 ++ [Dev_on 0%nat].
Proof.
  destruct (write_level_drives_and_records gpiozero healthy 17
              (mk_pin_state output 0 "off" (Some (GpiozeroDevice 0%nat)))
              "High" true output_17) as (Hr & Htrace & _).
  - reflexivity.
  - reflexivity.
  - eexists. reflexivity.
  - reflexivity.
  - reflexivity.
  - split; [exact Hr | exact Htrace].
Defined.

(** X13.  Write on a pin that is not configured as output (an input, a
    pin with PWM only, an unconfigured or an invalid pin): whatever the
    action, duration and loops, the request is answered with the 400
    'not configured as output' error and the world is left exactly as it
    was, with no hardware call and no event. *)
Theorem write_refused_unless_output b raises data pin action w :
  req_pin data = Some pin → req_action data = Some action →
  mode_of w pin ≠ Some output →
  write_pin b raises data w = (Ret (Error (Err_not_output pin) 400), w).
Proof.
  intros Hpin Hact Hmode. unfold mode_of in Hmode.
  unfold write_pin, try_except, required, mbind, M_bind, fmap, M_fmap, gets,
    mret, M_ret.
  rewrite Hpin, Hact. simpl.
  destruct (pin_states w !! pin) as [[[] v p d]|]; simpl in *; congruence.
Qed.

Lemma write_refused_unless_output_witness :
  write_pin gpiozero healthy (pulse_request 17 (inject_Z 100) 3) monitored_17
  = (Ret (Error (Err_not_output 17) 400), monitored_17).
Proof.
  apply (write_refused_unless_output gpiozero healthy _ 17 "pulse").
  - reflexivity.
  - reflexivity.
  - vm_compute. discriminate.
Defined.

(** X14.  Monitor on a pin configured as input: the answer carries the
    resulting membership, which is the requested [enable] (true when the
    request has none); the pin is added to or removed from the monitor
    set and no other member changes, so enabling twice or disabling a
    pin that is not monitored is a successful no-op on the set. *)
Theorem monitor_sets_membership data pin w :
  req_pin data = Some pin → mode_of w pin = Some input →
  let enable := default true (req_enable data) in
  let r := toggle_monitor data w in
  r.1 = Ret (Success_monitoring enable) ∧
  input_monitors r.2
  = (if enable then {[pin]} ∪ input_monitors w else input_monitors w ∖ {[pin]}) ∧
  pin_states r.2 = pin_states w ∧ pwm_devices r.2 = pwm_devices w.
Proof.
  intros Hpin Hmode enable r. unfold mode_of in Hmode.
  unfold r, enable, toggle_monitor, try_except, required, mbind, M_bind, gets,
    mret, M_ret.
  rewrite Hpin. simpl.
  destruct (pin_states w !! pin) as [[[] v p d]|]; simpl in *; try congruence.
  destruct (default true (req_enable data)); unfold modify; simpl;
    rewrite log_event_run; simpl.
  - rewrite bool_decide_true; [done|].
    by apply elem_of_union_l, elem_of_singleton.
  - rewrite bool_decide_false; [done|].
    intros [_ Hnot]%elem_of_difference. apply Hnot. by apply elem_of_singleton.
Qed.

Lemma monitor_sets_membership_witness :
  (toggle_monitor (monitor_request 17 false) monitored_17).1
  = Ret (Success_monitoring false).
Proof.
  apply (monitor_sets_membership (monitor_request 17 false) 17 monitored_17).
  - reflexivity.
  - vm_compute. reflexivity.
Defined.

(** X15.  Stop PWM on a valid pin.  With no PWM running there it is a
    successful no-op: the world is unchanged, on every backend and
    driver.  With PWM running, on gpiozero or RPi.GPIO and a release
    call that does not raise, it is answered with success, makes exactly
    that one call ([close()] on gpiozero, [stop()] on RPi.GPIO), removes
    the PWM state and leaves the pin states alone. *)
Theorem pwm_stop_contract b raises pin action f d w :
  pin ∈ VALID_PINS → lower action = "stop" →
  let r := control_pwm b raises (pwm_request pin action f d) w in
  (pwm_devices w !! pin = None → r = (Ret Success, w)) ∧
  (∀ pwm, pwm_devices w !! pin = Some pwm → b ≠ mock →
     let release := match b with
                    | gpiozero => Dev_close (dev_handle (pwm_dev pwm))
                    | _ => PWM_stop (dev_handle (pwm_dev pwm))
                    end in
     raises release = false →
     r.1 = Ret Success ∧
     hw_trace r.2 = hw_trace w ++ [release] ∧
     pwm_devices r.2 = delete pin (pwm_devices w) ∧
     pin_states r.2 = pin_states w).
Proof.
  intros Hpin Hact r.
  unfold r, control_pwm, try_except, pwm_request, required, mbind, M_bind, fmap,
    M_fmap, mret, M_ret. simpl.
  rewrite bool_decide_true by done. rewrite Hact. simpl.
  unfold pwm_stop, mbind, M_bind, gets, mret, M_ret.
  split.
  - intros ->. done.
  - intros pwm Hpwm Hb Hok. rewrite Hpwm.
    destruct b; [| |done]; unfold hw, modify, mbind, M_bind, mret, M_ret;
      rewrite Hok; simpl; rewrite log_event_run; done.
Qed.

Lemma pwm_stop_contract_witness :
  control_pwm gpiozero healthy (pwm_request 18 "STOP" None None) output_17
  = (Ret Success, output_17).
Proof.
  apply (pwm_stop_contract gpiozero healthy 18 "STOP" None None output_17).
  - apply (bool_decide_unpack _). reflexivity.
  - reflexivity.
  - reflexivity.
Defined.



(** X17.  A request without the 'pin' key is answered with 500 by every
    handler: the [KeyError] is caught, one error record carrying it is
    published, and nothing else in the world changes. *)
Theorem missing_pin_answers_500 b raises data w :
  req_pin data = None →
  let failed msg :=
    (Ret (Error (Err_message msg) 500),
     set_event_queue (publish (event_queue w) (mk_event msg error_level)) w) in
  set_pin_mode b raises data w = failed (Msg_configure_error (KeyError "pin")) ∧
  write_pin b raises data w = failed (Msg_write_error (KeyError "pin")) ∧
  control_pwm b raises data w = failed (Msg_pwm_error (KeyError "pin")) ∧
  toggle_monitor data w = failed (Msg_monitor_error (KeyError "pin")).
Proof.
  intros Hpin failed. unfold failed.
  unfold set_pin_mode, write_pin, control_pwm, toggle_monitor, try_except,
    required, mbind, M_bind, fmap, M_fmap, mret, M_ret.
  rewrite Hpin. simpl. rewrite !log_event_run. done.
Qed.

Lemma missing_pin_answers_500_witness :
  (write_pin gpiozero healthy empty_request initial_world).1
  = Ret (Error (Err_message (Msg_write_error (KeyError "pin"))) 500).
Proof.
  destruct (missing_pin_answers_500 gpiozero healthy empty_request initial_world)
    as (_ & Hw & _); [reflexivity|].
  by rewrite Hw.
Defined.

(** *** What a refused or failed request leaves behind *)

Lemma wp_any {A} (m : M A) (Q : A → world → Prop) E w :
  (∀ a w', Q a w') → (∀ e w', E e w') → wp m Q E w.
Proof. intros HQ HE. unfold wp. by destruct (m w) as [[a|e] w']. Qed.

(** Steps through a handler, passing over [cleanup_pin] and the pulse
    loop, whose effect the goal does not depend on. *)
Ltac wp_skip :=
  repeat first
    [ wp_step
    | apply wp_log_event
    | apply wp_hw; intros ?
    | apply wp_sleep; intros
    | progress unfold fresh_handle
    | unfold_helpers
    | apply wp_cleanup_pin_returns; intros ?
    | lazymatch goal with
      | |- wp (for_range _ _) _ _ _ => apply wp_any; [intros ? ?|intros ? ?]
      end ];
  simpl in *.

Lemma wp_refused b raises o w :
  wp (run_op b raises o)
     (λ r w', ∀ body, r = Error body 400 →
        pin_states w' = pin_states w ∧
        input_monitors w' = input_monitors w ∧
        monitor_running w' = monitor_running w ∧
        event_queue w' = event_queue w ∧
        (body ≠ Err_duty_cycle → w' = w))
     (λ _ _, False) w.
Proof.
  destruct o as [data|data|data|data|]; simpl.
  5: { unfold wp. pose proof (reset_all_pins_always_succeeds b raises w) as H.
       destruct (reset_all_pins b raises w) as [[r|e] w']; simpl in *; [|done].
       injection H as ->. done. }
  all: unfold set_pin_mode, write_pin, control_pwm, toggle_monitor.
  all: wp_skip.
  all: try (intros body' [= <-]; done).
  all: try (intros body' [=]; done).
Qed.

(** X18.  A request answered with 400 has changed no pin state, left the
    monitor set and the monitor flag alone and published no record; and
    unless the answer is 'Duty cycle must be 0-100%', nothing in the
    world has changed, the driver's trace included. *)
Theorem refused_request_changes_no_pin b raises o body w :
  (run_op b raises o w).1 = Ret (Error body 400) →
  let w' := (run_op b raises o w).2 in
  pin_states w' = pin_states w ∧
  input_monitors w' = input_monitors w ∧
  monitor_running w' = monitor_running w ∧
  event_queue w' = event_queue w ∧
  (body ≠ Err_duty_cycle → w' = w).
Proof.
  intros Hres w'. pose proof (wp_refused b raises o w) as H.
  apply wp_run in H. rewrite Hres in H. by apply H.
Qed.

Lemma refused_request_changes_no_pin_witness :
  (run_op gpiozero healthy (Write (write_request 17 "high")) initial_world).2
  = initial_world.
Proof.
  apply (refused_request_changes_no_pin gpiozero healthy
           (Write (write_request 17 "high")) (Err_not_output 17) initial_world).
  - reflexivity.
  - discriminate.
Defined.

Lemma wp_failed b raises o w :
  wp (run_op b raises o)
     (λ r w', ∀ body, r = Error body 500 →
        ∃ msg w1, body = Err_message msg ∧
          w' = set_event_queue
                 (publish (event_queue w1) (mk_event msg error_level)) w1)
     (λ _ _, False) w.
Proof.
  destruct o as [data|data|data|data|]; simpl.
  5: { unfold wp. pose proof (reset_all_pins_always_succeeds b raises w) as H.
       destruct (reset_all_pins b raises w) as [[r|e] w']; simpl in *; [|done].
       injection H as ->. done. }
  all: unfold set_pin_mode, write_pin, control_pwm, toggle_monitor.
  all: wp_skip.
  all: try (intros body' [=]; done).
  all: intros body' [= <-];
    lazymatch goal with
    | |- context [set_event_queue _ ?w1] => eexists _, w1; split; reflexivity
    end.
Qed.

(** X19.  Every request answered with 500 has published an error record
    carrying the message of the answer: with the unbounded queue of the
    application it is the newest record of the queue. *)
Theorem failed_request_is_logged b raises o body w :
  queue_maxsize w = 0 →
  (run_op b raises o w).1 = Ret (Error body 500) →
  ∃ msg, body = Err_message msg ∧
    last (items (event_queue (run_op b raises o w).2))
    = Some (mk_event msg error_level).
Proof.
  intros Hmax Hres. pose proof (wp_failed b raises o w) as H.
  apply wp_run in H. rewrite Hres in H.
  destruct (H body eq_refl) as (msg & w1 & -> & Hw').
  exists msg. split; [done|].
  pose proof (keeps_maxsize_run_op b raises o w) as Hkeep.
  rewrite Hw' in Hkeep |- *. unfold queue_maxsize in *. simpl in *.
  rewrite publish_maxsize in Hkeep.
  rewrite publish_unbounded by lia. apply last_snoc.
Qed.

Lemma failed_request_is_logged_witness :
  last (items (event_queue
    (run_op gpiozero healthy (Write empty_request) initial_world).2))
  = Some (mk_event (Msg_write_error (KeyError "pin")) error_level).
Proof.
  destruct (failed_request_is_logged gpiozero healthy (Write empty_request)
              (Err_message (Msg_write_error (KeyError "pin"))) initial_world)
    as (msg & Hmsg & Hlast); [reflexivity|reflexivity|].
  injection Hmsg as <-. exact Hlast.
Defined.

(** *** A pulse with a negative duration *)




(** *** The state query *)

Lemma add_pwm_status_fold (items : list (Z * pwm_info)) pins_data :
  NoDup items.*1 →
  foldl add_pwm_status pins_data items
  = map (with_pwm (list_to_map items)) pins_data.
Proof.
  revert pins_data. induction items as [|[p i] rest IH]; intros pins_data Hnd.
  - simpl. induction pins_data as [|e es IHes]; simpl; [done|].
    rewrite <- IHes. unfold with_pwm. by rewrite lookup_empty.
  - apply NoDup_cons in Hnd as [Hp Hnd]. simpl. rewrite IH by done.
    unfold add_pwm_status. rewrite map_map. apply map_ext. intros [k j]. simpl.
    unfold with_pwm. simpl. destruct (k =? p) eqn:Hk.
    + apply Z.eqb_eq in Hk as ->. simpl. rewrite lookup_insert_eq.
      by rewrite (not_elem_of_list_to_map_1 _ _ Hp).
    + apply Z.eqb_neq in Hk. by rewrite lookup_insert_ne.
Qed.

Lemma add_pwm_status_registry (pw : gmap Z pwm_info) pins_data :
  foldl add_pwm_status pins_data (map_to_list pw) = map (with_pwm pw) pins_data.
Proof.
  rewrite add_pwm_status_fold by apply NoDup_fst_map_to_list.
  by rewrite list_to_map_to_list.
Qed.

Lemma same_registries_refl w : same_registries w w.
Proof. by repeat split. Qed.

Lemma wp_pin_entry b raises levels pin w w0 :
  never_raises raises → same_registries w w0 →
  wp (pin_entry b raises levels pin)
     (λ e w', same_registries w w' ∧ e.1 = pin ∧
              reports_pin b raises levels w pin e.2 ∧ pj_pwm e.2 = None)
     (λ _ _, False) w0.
Proof.
  intros Hok (Hps & Hpw & Hmon & Hq & Hrun & Hmock & Hnext).
  unfold pin_entry, reports_pin. apply wp_bind, wp_gets. rewrite Hps.
  destruct (pin_states w !! pin) as [[m v p dev]|] eqn:Hst; simpl.
  2: { apply wp_ret. by repeat split. }
  destruct m; simpl.
  2: { apply wp_bind, wp_ret, wp_ret. by repeat split. }
  unfold read_pin_value, mock_input, mbind, M_bind, gets, hw, modify, mret, M_ret.
  apply wp_bind.
  destruct b; simpl.
  - unfold wp. simpl. rewrite Hps, Hst. simpl.
    destruct dev as [d|]; simpl; rewrite ?Hok; simpl; by repeat split.
  - unfold wp. simpl. rewrite !Hok. simpl. by repeat split.
  - unfold wp. simpl. rewrite Hmock. by repeat split.
Qed.

Lemma wp_pin_entries b raises levels pins w w0 :
  never_raises raises → same_registries w w0 →
  wp (pin_entries b raises levels pins)
     (λ es w', same_registries w w' ∧ es.*1 = pins ∧
        Forall (λ e, reports_pin b raises levels w e.1 e.2 ∧ pj_pwm e.2 = None) es)
     (λ _ _, False) w0.
Proof.
  intros Hok. revert w0. induction pins as [|pin rest IH]; intros w0 Hsame; simpl.
  - apply wp_ret. split; [done|]. split; [done|]. apply Forall_nil_2.
  - apply wp_bind. eapply wp_mono; [by apply wp_pin_entry| |done].
    simpl. intros e w1 (Hsame1 & He & Hrep & Hnone).
    apply wp_bind. eapply wp_mono; [by apply IH| |done].
    simpl. intros es w2 (Hsame2 & Hes & Hall). apply wp_ret.
    split; [done|]. split; [by rewrite fmap_cons, He, Hes|].
    apply Forall_cons. by rewrite He.
Qed.

(** X21.  The state query with a driver that does not raise: the answer
    has one entry per valid pin, in the order of [VALID_PINS].  The entry
    of a configured pin gives its mode and pull, and as value the stored
    one for an output and the level just read for an input; the entry of
    any other pin is the unconfigured one.  The 'pwm' key is there
    exactly for the pins with a PWM state, with its frequency and duty
    cycle.  The query changes nothing but the driver's trace. *)
Theorem state_query_reflects_registries b is_pi raises levels w :
  never_raises raises →
  let r := get_pins b is_pi raises levels w in
  same_registries w r.2 ∧
  ∃ pins_data,
    r.1 = Ret (Pins pins_data b is_pi VALID_PINS PWM_PINS) ∧
    pins_data.*1 = VALID_PINS ∧
    ∀ pin, pin ∈ VALID_PINS →
      ∃ j, snapshot_entry r.1 pin = Some j ∧
           reports_pin b raises levels w pin j ∧
           pj_pwm j
           = (λ i, (frequency i, duty_cycle i)) <$> pwm_devices w !! pin.
Proof.
  intros Hok r.
  enough (wp (get_pins b is_pi raises levels)
             (λ res w', same_registries w w' ∧
                ∃ pins_data,
                  res = Pins pins_data b is_pi VALID_PINS PWM_PINS ∧
                  pins_data.*1 = VALID_PINS ∧
                  ∀ pin, pin ∈ VALID_PINS →
                    ∃ j, snapshot_entry (Ret res) pin = Some j ∧
                         reports_pin b raises levels w pin j ∧
                         pj_pwm j
                         = (λ i, (frequency i, duty_cycle i))
                             <$> pwm_devices w !! pin)
             (λ _ _, False) w) as H.
  { apply wp_run in H. fold r in H.
    destruct r as [[res|e] w']; simpl in *; [|done].
    destruct H as (Hsame & data & -> & Hkeys & Hall).
    split; [done|]. by exists data. }
  unfold get_pins. apply wp_try, wp_bind.
  eapply wp_mono; [apply (wp_pin_entries _ _ _ _ w); [done|apply same_registries_refl]| |done].
  simpl. intros es w1 (Hsame & Hkeys & Hall).
  apply wp_bind, wp_gets, wp_ret. split; [done|].
  destruct Hsame as (_ & Hpw & _). rewrite Hpw, add_pwm_status_registry.
  assert ((map (with_pwm (pwm_devices w)) es).*1 = VALID_PINS) as Hkeys'.
  { rewrite <- Hkeys. clear. induction es as [|e es IH]; [done|].
    cbn [map]. rewrite !fmap_cons, IH. f_equal.
    unfold with_pwm. by destruct (_ !! _). }
  eexists. split; [done|]. split; [done|].
  intros pin Hpin. rewrite <- Hkeys in Hpin.
  apply list_elem_of_fmap in Hpin as (e & -> & He).
  exists (with_pwm (pwm_devices w) e).2. split; [|split].
  - simpl. apply elem_of_list_to_map_1.
    + rewrite Hkeys'. by apply (bool_decide_unpack _).
    + replace (e.1) with (with_pwm (pwm_devices w) e).1
        by (unfold with_pwm; by destruct (_ !! _)).
      rewrite <- surjective_pairing. apply list_elem_of_In, in_map.
      by apply list_elem_of_In.
  - rewrite Forall_forall in Hall. destruct (Hall e He) as [Hrep _].
    unfold with_pwm. destruct (pwm_devices w !! e.1); [|done].
    simpl. unfold reports_pin in *. simpl.
    by destruct (pin_states w !! e.1) as [[[] ? ? ?]|].
  - rewrite Forall_forall in Hall. destruct (Hall e He) as [_ Hnone].
    unfold with_pwm. by destruct (pwm_devices w !! e.1).
Qed.

Lemma state_query_reflects_registries_witness :
  ∃ j, snapshot_entry
         (get_pins gpiozero true healthy (constant_level 0) pwm_18_running).1 18
       = Some j ∧
       pj_mode j = None ∧
       pj_pwm j = Some (inject_Z 1000, inject_Z 50).
Proof.
  assert (18 ∈ VALID_PINS) as Hvalid
    by (apply (bool_decide_unpack _); reflexivity).
  destruct (state_query_reflects_registries gpiozero true healthy
              (constant_level 0) pwm_18_running)
    as (_ & data & _ & _ & Hall).
  - intros c. reflexivity.
  - destruct (Hall 18 Hvalid) as (j & Hj & Hrep & Hpwm).
    exists j. split; [exact Hj|]. split; [|exact Hpwm].
    unfold reports_pin in Hrep.
    change (pin_states pwm_18_running !! 18) with (@None pin_state) in Hrep.
    apply Hrep.
Defined.

(** *** Reset followed by the state query; reconfiguring a pin *)

(** X22.  When no [close()] raises, the state query that follows a reset
    reports every valid pin as unconfigured, with no 'pwm' key, whatever
    was configured before, and makes no hardware call. *)
Theorem reset_then_query_reports_unconfigured b is_pi raises levels w :
  closes_cleanly raises →
  let w' := (reset_all_pins b raises w).2 in
  get_pins b is_pi raises levels w'
  = (Ret (Pins (map (λ pin, (pin, unconfigured_json)) VALID_PINS)
               b is_pi VALID_PINS PWM_PINS), w').
Proof.
  intros Hclose w'.
  destruct (reset_all_pins_clean b raises w Hclose) as (_ & Hps & Hpw & _).
  by apply get_pins_unconfigured.
Qed.

Lemma reset_then_query_reports_unconfigured_witness :
  snapshot_entry
    (get_pins gpiozero true healthy (constant_level 1)
       (reset_all_pins gpiozero healthy pwm_18_running).2).1 18
  = Some unconfigured_json.
Proof.
  rewrite (reset_then_query_reports_unconfigured gpiozero true healthy
             (constant_level 1) pwm_18_running).
  - reflexivity.
  - intros h. reflexivity.
Defined.

(** X23.  Reconfiguring a pin on gpiozero with a driver that does not
    raise: the device the pin held is closed once, then a new device is
    acquired under a handle never given out before, and the pin state
    holds the new device.  Nothing else is called. *)
Theorem reconfigure_releases_then_acquires raises pin m pull pm st h w :
  never_raises raises → pin ∈ VALID_PINS → parse_mode (lower m) = Some pm →
  pin_states w !! pin = Some st → device st = Some (GpiozeroDevice h) →
  pwm_devices w !! pin = None →
  let r := set_pin_mode gpiozero raises (configure_request pin m pull) w in
  let fresh := next_handle w in
  let acquire :=
    match pm with
    | output => New_OutputDevice pin fresh
    | input =>
        New_InputDevice pin
          (if String.eqb (lower pull) "off" then None
           else Some (String.eqb (lower pull) "up")) fresh
    end in
  r.1 = Ret Success ∧
  hw_trace r.2 = hw_trace w ++ [Dev_close h; acquire] ∧
  close_count h (hw_trace r.2) = S (close_count h (hw_trace w)) ∧
  pin_handle r.2 pin = Some fresh ∧
  next_handle r.2 = S fresh.
Proof.
  intros Hok Hpin Hmode Hst Hdev Hpw r fresh acquire.
  enough (wp (set_pin_mode gpiozero raises (configure_request pin m pull))
             (λ res w', res = Success ∧
                hw_trace w' = hw_trace w ++ [Dev_close h; acquire] ∧
                pin_handle w' pin = Some fresh ∧ next_handle w' = S fresh)
             (λ _ _, False) w) as H.
  { apply wp_run in H. fold r in H.
    destruct r as [[res|e] w']; simpl in *; [|done].
    destruct H as (-> & Htr & Hh & Hn). repeat split; try done.
    rewrite Htr. unfold close_count.
    rewrite filter_app, length_app.
    rewrite filter_cons_True by (simpl; apply Nat.eqb_refl).
    rewrite filter_cons_False by (unfold acquire; by destruct pm).
    rewrite filter_nil. simpl. lia. }
  unfold set_pin_mode, configure_request. simpl.
  apply wp_try, wp_bind, wp_ret, wp_bind, wp_fmap, wp_ret.
  rewrite bool_decide_true by done. simpl. rewrite Hmode.
  apply wp_bind.
  unfold cleanup_pin. apply wp_try, wp_bind, wp_gets. rewrite Hst, Hdev.
  simpl. unfold pin_handle, acquire, fresh.
  destruct pm; wp_go; rewrite ?Hok in *; try discriminate.
  all: rewrite ?Hpw in *; simplify_eq.
  all: rewrite <- app_assoc, lookup_insert_eq; done.
Qed.

Lemma reconfigure_releases_then_acquires_witness :
  let r := set_pin_mode gpiozero healthy (configure_request 17 "input" "up")
             output_17 in
  r.1 = Ret Success ∧
  hw_trace r.2
  = hw_trace output_17 ++ [Dev_close 0%nat; New_InputDevice 17 (Some true) 1%nat].
Proof.
  assert (17 ∈ VALID_PINS) as Hvalid
    by (apply (bool_decide_unpack _); reflexivity).
  destruct (reconfigure_releases_then_acquires healthy 17 "input" "up" input
              (mk_pin_state output 0 "off" (Some (GpiozeroDevice 0%nat)))
              0%nat output_17)
    as (Hr & Htrace & _).
  - intros c. reflexivity.
  - exact Hvalid.
  - reflexivity.
  - reflexivity.
  - reflexivity.
  - reflexivity.
  - split; [exact Hr | exact Htrace].
Defined.

(** *** Devices acquired and released *)

Lemma no_leak_initial : no_leak initial_world.
Proof. intros h Hh. simpl in Hh. lia. Qed.

Lemma closable_well_formed w : well_formed gpiozero w → closable w.
Proof.
  intros (Hps & Hpw & _). split.
  - intros pin st d Hst Hd. destruct (Hps pin st Hst) as (_ & _ & _ & _ & h & Hh).
    rewrite Hh in Hd. by injection Hd as <-.
  - intros pin pwm Hpwm. destruct (Hpw pin pwm Hpwm) as (_ & _ & h & ->). done.
Qed.

(** The general step: handles held before are held or closed after, and
    the handles issued in between are held or closed. *)
Lemma no_leak_step w w' :
  (next_handle w <= next_handle w')%nat →
  (∀ c, c ∈ hw_trace w → c ∈ hw_trace w') →
  (∀ h, held w h → held w' h ∨ Dev_close h ∈ hw_trace w') →
  (∀ h, (next_handle w <= h < next_handle w')%nat →
        held w' h ∨ Dev_close h ∈ hw_trace w') →
  no_leak w → no_leak w'.
Proof.
  intros Hn Htr Hheld Hnew Hw h Hh.
  destruct (decide (h < next_handle w)%nat) as [Hlt|Hge].
  - destruct (Hw h Hlt) as [Hhd|Hcl]; [by apply Hheld|right; by apply Htr].
  - apply Hnew. lia.
Qed.

(** Changes that leave every entry's handle as it was. *)
Lemma no_leak_same w w' :
  (∀ p, pin_handle w' p = pin_handle w p) →
  (∀ p, pwm_handle w' p = pwm_handle w p) →
  next_handle w' = next_handle w →
  (∀ c, c ∈ hw_trace w → c ∈ hw_trace w') →
  no_leak w → no_leak w'.
Proof.
  intros Hps Hpw Hn Htr. apply no_leak_step; [lia|done| |intros h; lia].
  intros h [pin Hpin]. left. exists pin. by rewrite Hps, Hpw.
Qed.

(** With a driver that does not raise and objects that can be closed,
    [cleanup_pin] closes what the pin held and removes its entries. *)
Lemma wp_cleanup_pin_releases raises pin (Q : unit → world → Prop) E w :
  never_raises raises → closable w →
  (∀ w', pin_states w' = delete pin (pin_states w) →
         pwm_devices w' = delete pin (pwm_devices w) →
         next_handle w' = next_handle w →
         (∀ c, c ∈ hw_trace w → c ∈ hw_trace w') →
         (∀ h, pin_handle w pin = Some h → Dev_close h ∈ hw_trace w') →
         (∀ h, pwm_handle w pin = Some h → Dev_close h ∈ hw_trace w') →
         Q tt w') →
  wp (cleanup_pin raises pin) Q E w.
Proof.
  intros Hok [Hcps Hcpw] HQ. unfold cleanup_pin, pin_handle, pwm_handle in *.
  destruct (pin_states w !! pin) as [st|] eqn:Hst;
    destruct (pwm_devices w !! pin) as [pwm|] eqn:Hpwm.
  all: try (destruct (device st) as [d|] eqn:Hd;
            [pose proof (Hcps pin st d Hst Hd) as Hcd|]).
  all: try pose proof (Hcpw pin pwm Hpwm) as Hcp.
  all: wp_go; simplify_eq; rewrite ?Hok in *; try discriminate.
  all: try congruence.
  all: apply HQ; simpl; rewrite ?delete_id by done; try done.
  all: try (intros c Hc; rewrite ?elem_of_app; tauto).
  all: try (intros h [= <-]).
  all: try (intros h; rewrite ?Hd; simpl; intros [= <-]).
  all: rewrite ?elem_of_app, ?list_elem_of_singleton; tauto.
Qed.

Lemma wp_cleanup_pin_no_leak raises pin (Q : unit → world → Prop) E w :
  never_raises raises → closable w → no_leak w →
  (∀ w', pin_states w' = delete pin (pin_states w) →
         pwm_devices w' = delete pin (pwm_devices w) →
         next_handle w' = next_handle w →
         (∀ c, c ∈ hw_trace w → c ∈ hw_trace w') →
         no_leak w' → Q tt w') →
  wp (cleanup_pin raises pin) Q E w.
Proof.
  intros Hok Hcl Hnl HQ. apply wp_cleanup_pin_releases; [done|done|].
  intros w' Hps Hpw Hn Htr Hcps Hcpw. apply HQ; try done.
  apply (no_leak_step w); [lia|done| |intros h; lia|done].
  intros h [p [Hp|Hp]]; destruct (decide (p = pin)) as [->|Hne];
    [right; by apply Hcps | left | right; by apply Hcpw | left]; exists p.
  - left. unfold pin_handle in *. by rewrite Hps, lookup_delete_ne.
  - right. unfold pwm_handle in *. by rewrite Hpw, lookup_delete_ne.
Qed.

(** A new entry that holds the handle just issued, on a pin that had
    none. *)
Lemma no_leak_insert_pin w w' pin st :
  pin_states w' = <[pin := st]> (pin_states w) →
  pin_states w !! pin = None →
  pwm_devices w' = pwm_devices w →
  next_handle w' = S (next_handle w) →
  (∀ c, c ∈ hw_trace w → c ∈ hw_trace w') →
  dev_handle <$> device st = Some (next_handle w) →
  no_leak w → no_leak w'.
Proof.
  intros Hps Hnone Hpw Hn Htr Hdev.
  apply no_leak_step; [lia|done| |].
  - intros h [p [Hp|Hp]]; left; exists p; [left|right].
    + unfold pin_handle in *. rewrite Hps.
      destruct (decide (p = pin)) as [->|Hne]; [by rewrite Hnone in Hp|].
      by rewrite lookup_insert_ne.
    + unfold pwm_handle in *. by rewrite Hpw.
  - intros h Hh. assert (h = next_handle w) as -> by lia.
    left. exists pin. left. unfold pin_handle. by rewrite Hps, lookup_insert_eq.
Qed.

Lemma no_leak_insert_pwm w w' pin pwm :
  pwm_devices w' = <[pin := pwm]> (pwm_devices w) →
  pwm_devices w !! pin = None →
  pin_states w' = pin_states w →
  next_handle w' = S (next_handle w) →
  (∀ c, c ∈ hw_trace w → c ∈ hw_trace w') →
  dev_handle (pwm_dev pwm) = next_handle w →
  no_leak w → no_leak w'.
Proof.
  intros Hpw Hnone Hps Hn Htr Hdev.
  apply no_leak_step; [lia|done| |].
  - intros h [p [Hp|Hp]]; left; exists p; [left|right].
    + unfold pin_handle in *. by rewrite Hps.
    + unfold pwm_handle in *. rewrite Hpw.
      destruct (decide (p = pin)) as [->|Hne]; [by rewrite Hnone in Hp|].
      by rewrite lookup_insert_ne.
  - intros h Hh. assert (h = next_handle w) as -> by lia.
    left. exists pin. right. unfold pwm_handle.
    rewrite Hpw, lookup_insert_eq. simpl. by rewrite Hdev.
Qed.

Ltac trace_grows :=
  let c := fresh "c" in let Hc := fresh "Hc" in
  intros c Hc; simpl; rewrite ?elem_of_app; auto.

(** A world that differs in the queue, the trace and the flags only. *)
Ltac nl_same :=
  match goal with
  | Hnl : no_leak ?W |- no_leak _ =>
      by (apply (no_leak_same W); [done|done|done|trace_grows|exact Hnl])
  end.

Lemma no_leak_set_pin_mode raises data w :
  never_raises raises → closable w → no_leak w →
  wp (set_pin_mode gpiozero raises data) (λ _, no_leak) (λ _, no_leak) w.
Proof.
  intros Hok Hcl Hnl. unfold set_pin_mode.
  wp_go; try nl_same.
  all: apply wp_cleanup_pin_no_leak; [done|done|done|].
  all: intros w1 Hps Hpw Hn Htr Hnl1; clear Hnl.
  all: wp_go; rewrite ?Hok in *; try discriminate.
  all: match goal with
       | H : req_pin _ = Some ?z |- _ =>
           eapply (no_leak_insert_pin w1 _ z);
           [reflexivity|rewrite Hps; apply lookup_delete_eq|reflexivity
           |reflexivity|trace_grows|reflexivity|done]
       end.
Qed.

Lemma wp_for_range (I : world → Prop) n (body : M unit) Q E w :
  I w →
  (∀ w0, I w0 → wp body (λ _, I) E w0) →
  (∀ w0, I w0 → Q tt w0) →
  wp (for_range n body) Q E w.
Proof.
  intros HI Hbody HQ. revert w HI.
  induction n as [|k IH]; intros w HI; simpl.
  - apply wp_ret. auto.
  - apply wp_bind. eapply wp_mono; [by apply Hbody| |done].
    simpl. intros _ w' HI'. by apply IH.
Qed.

(** The stored value of a pin changes, its device does not. *)
Ltac nl_value z :=
  match goal with
  | Hnl : no_leak ?W |- no_leak _ =>
      apply (no_leak_same W); [| | |trace_grows|exact Hnl]; simpl;
      [ let q := fresh "q" in
        intros q; unfold pin_handle; simpl;
        destruct (decide (q = z)) as [->|];
        by simplify_map_eq
      | done
      | done ]
  end.

Lemma no_leak_write_pin b raises data w :
  no_leak w →
  wp (write_pin b raises data) (λ _, no_leak) (λ _, no_leak) w.
Proof.
  intros Hnl. unfold write_pin.
  wp_go; try nl_same.
  all: try match goal with H : req_pin _ = Some ?z |- _ => nl_value z end.
  all: apply (wp_for_range no_leak); [done| |].
  all: try (intros w0 Hnl0; clear Hnl; wp_go; try nl_same;
            match goal with H : req_pin _ = Some ?z |- _ => nl_value z end).
Qed.

Lemma no_leak_delete_pwm w w' pin :
  pwm_devices w' = delete pin (pwm_devices w) →
  pin_states w' = pin_states w →
  next_handle w' = next_handle w →
  (∀ c, c ∈ hw_trace w → c ∈ hw_trace w') →
  (∀ h, pwm_handle w pin = Some h → Dev_close h ∈ hw_trace w') →
  no_leak w → no_leak w'.
Proof.
  intros Hpw Hps Hn Htr Hcl.
  apply no_leak_step; [lia|done| |intros h; lia].
  intros h [p [Hp|Hp]].
  - left. exists p. left. unfold pin_handle in *. by rewrite Hps.
  - destruct (decide (p = pin)) as [->|Hne]; [right; by apply Hcl|].
    left. exists p. right. unfold pwm_handle in *. by rewrite Hpw, lookup_delete_ne.
Qed.

(** The stored frequency or duty cycle changes, the PWM object does not. *)
Ltac nl_alter z :=
  match goal with
  | Hnl : no_leak ?W |- no_leak _ =>
      apply (no_leak_same W); [| | |trace_grows|exact Hnl]; simpl;
      [ done
      | let q := fresh "q" in
        intros q; unfold pwm_handle; simpl;
        destruct (decide (q = z)) as [->|];
        rewrite ?lookup_alter_eq, ?lookup_alter_ne by done;
        try done;
        repeat match goal with
               | |- context [pwm_devices ?w0 !! z] =>
                   destruct (pwm_devices w0 !! z); simpl
               end; done
      | done ]
  end.

Lemma no_leak_control_pwm raises data w :
  never_raises raises → closable w → no_leak w →
  wp (control_pwm gpiozero raises data) (λ _, no_leak) (λ _, no_leak) w.
Proof.
  intros Hok Hcl Hnl. unfold control_pwm.
  wp_go; rewrite ?Hok in *; try discriminate; try nl_same.
  all: try match goal with H : req_pin _ = Some ?z |- _ => nl_alter z end.
  all: try (apply wp_cleanup_pin_no_leak; [done|exact Hcl|try done; nl_same|];
            intros w1 Hps Hpw Hn Htr Hnl1; clear Hnl;
            wp_go; rewrite ?Hok in *; try discriminate;
            match goal with
            | H : req_pin _ = Some ?z |- _ =>
                eapply (no_leak_insert_pwm w1 _ z);
                [reflexivity|rewrite Hpw; apply lookup_delete_eq|reflexivity
                |reflexivity|trace_grows|reflexivity|done]
            end).
  all: match goal with
       | H : req_pin _ = Some ?z |- _ =>
           apply (no_leak_delete_pwm w _ z);
           [reflexivity|reflexivity|reflexivity|trace_grows| |done]
       end.
  all: intros h; unfold pwm_handle; simpl.
  all: match goal with H : pwm_devices _ !! _ = Some _ |- _ => rewrite H end.
  all: simpl; intros [= <-]; rewrite elem_of_app, list_elem_of_singleton; by right.
Qed.

Lemma no_leak_toggle_monitor data w :
  no_leak w →
  wp (toggle_monitor data) (λ _, no_leak) (λ _, no_leak) w.
Proof. intros Hnl. unfold toggle_monitor. wp_go; nl_same. Qed.

Lemma closable_delete w w' pin :
  pin_states w' = delete pin (pin_states w) →
  pwm_devices w' = delete pin (pwm_devices w) →
  closable w → closable w'.
Proof.
  intros Hps Hpw [H1 H2]. split.
  - intros p st d. rewrite Hps. intros [_ Hst]%lookup_delete_Some. by eapply H1.
  - intros p pwm. rewrite Hpw. intros [_ Hst]%lookup_delete_Some. by eapply H2.
Qed.

Lemma no_leak_cleanup_pins raises pins (Q : unit → world → Prop) E w :
  never_raises raises → closable w → no_leak w →
  (∀ w', closable w' → no_leak w' → Q tt w') →
  wp (for_each pins (cleanup_pin raises)) Q E w.
Proof.
  intros Hok Hcl Hnl HQ.
  apply (wp_for_each (λ w0, closable w0 ∧ no_leak w0)); [done| |].
  - intros pin w0 [Hcl0 Hnl0]. apply wp_cleanup_pin_no_leak; [done..|].
    intros w1 Hps Hpw _ _ Hnl1. split; [|done]. by eapply closable_delete.
  - intros w0 [Hcl0 Hnl0]. by apply HQ.
Qed.

Lemma no_leak_reset_all_pins raises w :
  never_raises raises → closable w → no_leak w →
  wp (reset_all_pins gpiozero raises) (λ _, no_leak) (λ _, no_leak) w.
Proof.
  intros Hok Hcl Hnl. unfold reset_all_pins, cleanup_all.
  apply wp_try, wp_bind, wp_modify, wp_bind, wp_bind, wp_modify, wp_bind, wp_gets.
  apply wp_bind, no_leak_cleanup_pins; [done|exact Hcl|nl_same|].
  intros w1 Hcl1 Hnl1. clear Hnl. apply wp_bind, wp_gets.
  apply wp_bind, no_leak_cleanup_pins; [done|exact Hcl1|done|].
  intros w2 Hcl2 Hnl2. clear Hnl1. wp_go. nl_same.
Qed.

Lemma no_leak_run_ops raises ops :
  never_raises raises → no_leak (run_ops gpiozero raises ops initial_world).
Proof.
  intros Hok.
  induction ops as [|o ops IH] using rev_ind; [apply no_leak_initial|].
  rewrite run_ops_app. cbn [run_ops].
  pose proof (closable_well_formed _ (well_formed_run_ops gpiozero raises ops)) as Hcl.
  set (w := run_ops gpiozero raises ops initial_world) in *.
  destruct o as [data|data|data|data|]; simpl;
    [ pose proof (no_leak_set_pin_mode raises data w Hok Hcl IH) as H
    | pose proof (no_leak_write_pin gpiozero raises data w IH) as H
    | pose proof (no_leak_control_pwm raises data w Hok Hcl IH) as H
    | pose proof (no_leak_toggle_monitor data w IH) as H
    | pose proof (no_leak_reset_all_pins raises w Hok Hcl IH) as H ];
    apply wp_run in H; by destruct (_.1).
Qed.

Lemma close_count_elem h trace :
  Dev_close h ∈ trace → (1 <= close_count h trace)%nat.
Proof.
  intros (l1 & l2 & ->)%list_elem_of_In%in_split. unfold close_count.
  rewrite filter_app, length_app.
  rewrite filter_cons_True by (simpl; apply Nat.eqb_refl). simpl. lia.
Qed.

(** X24.  No device is leaked on gpiozero when the driver does not
    raise: after every sequence of requests, each device the application
    has acquired is either still held by a pin state or a PWM state, or
    has had [close()] called on it. *)
Theorem no_device_is_leaked raises ops h :
  never_raises raises →
  let w := run_ops gpiozero raises ops initial_world in
  (h < next_handle w)%nat →
  held w h ∨ (1 <= close_count h (hw_trace w))%nat.
Proof.
  intros Hok w Hh.
  destruct (no_leak_run_ops raises ops Hok h Hh) as [Hheld|Hclosed]; [by left|].
  right. by apply close_count_elem.
Qed.

Lemma no_device_is_leaked_witness :
  let w := run_ops gpiozero healthy
             [Configure (configure_request 17 "input" "down");
              Pwm (pwm_request 18 "start" None None);
              Configure (configure_request 17 "output" "off")] initial_world in
  held w 0%nat ∨ (1 <= close_count 0 (hw_trace w))%nat.
Proof.
  apply (no_device_is_leaked healthy
           [Configure (configure_request 17 "input" "down");
            Pwm (pwm_request 18 "start" None None);
            Configure (configure_request 17 "output" "off")] 0%nat).
  - intros c. reflexivity.
  - vm_compute. lia.
Defined.
